(** * GPflow documentation generator: [doc/source/ext/generate_module_rst.py]

    A shallow embedding of the classifier, the renderers and the breadth-first
    traversal of [generate_module_rst.py], and the properties of the
    traversal, the look-ahead test and the templates.

    Python objects live in a finite store indexed by their [id]; attribute
    accesses that Python would reject are results [Raise e] of an error
    monad; the files written by a run are the log of [write_to_rst_file]
    calls. *)

From Stdlib Require Import ZArith Ascii String List Lia.
From stdpp Require Import base option list gmap strings fin_sets.

Local Open Scope Z_scope.

(* [set_solver] clears hypotheses it has already consumed. *)
#[local] Set Warnings "-clear-no-such-hyp".

(** ** Strings *)

Module Str.

(** The one-character string [c]. *)
Definition chr (c : ascii) : string := String c EmptyString.

(** Line feed, the line separator of the triple-quoted templates. *)
Definition nl : string := chr (ascii_of_nat 10).

(** The double quote, one of the heading underline characters. *)
Definition dquote : string := chr (ascii_of_nat 34).

(** [needle in hay] on Python strings. *)
Fixpoint contains (needle hay : string) : bool :=
  if String.prefix needle hay then true
  else match hay with
       | EmptyString => false
       | String _ rest => contains needle rest
       end.

(** [s.startswith(p)]. *)
Definition startswith (p s : string) : bool := String.prefix p s.

(** [s.replace(a, b)] for one-character [a] and [b]. *)
Fixpoint replace (a b : ascii) (s : string) : string :=
  match s with
  | EmptyString => EmptyString
  | String c rest =>
      String (if Ascii.eqb c a then b else c) (replace a b rest)
  end.

(** [s.split(sep)] for a one-character separator: never empty. *)
Fixpoint split (sep : ascii) (s : string) : list string :=
  match s with
  | EmptyString => [EmptyString]
  | String c rest =>
      if Ascii.eqb c sep then EmptyString :: split sep rest
      else match split sep rest with
           | [] => [chr c]
           | seg :: segs => String c seg :: segs
           end
  end.

(** [sep.join(l)]. *)
Definition join (sep : string) (l : list string) : string :=
  String.concat sep l.

(** [s * n]. *)
Fixpoint repeat (s : string) (n : nat) : string :=
  match n with
  | O => EmptyString
  | S k => s +:+ repeat s k
  end.

End Str.

(** ** Exceptions *)

Inductive exn := AttributeError | IndexError.

Inductive result (A : Type) :=
| Ok (a : A)
| Raise (e : exn).
Arguments Ok {A} a.
Arguments Raise {A} e.

#[global] Instance result_ret : MRet result := fun A a => Ok a.
#[global] Instance result_bind : MBind result := fun A B f r =>
  match r with
  | Ok a => f a
  | Raise e => Raise e
  end.

(** [from_attr o]: the value of an attribute, [AttributeError] when the
    object has none. *)
Definition from_attr {A} (o : option A) : result A :=
  match o with
  | Some a => Ok a
  | None => Raise AttributeError
  end.

(** ** Reflected objects *)

(** Which of [inspect.ismodule], [inspect.isfunction], [inspect.isclass]
    holds of an object; the three are exclusive. *)
Inductive pykind := KModule | KFunction | KClass | KOther.

#[global] Instance pykind_eq_dec : EqDecision pykind.
Proof. solve_decision. Defined.

(** What the script reads of an object [m]. Objects are referred to by
    their [id]. *)
Record pyobj := PyObj {
  py_kind : pykind;
  py_type_name : string;                  (* type(m).__name__ *)
  py_name : option string;                (* m.__name__ *)
  py_module : option string;              (* m.__module__ *)
  py_dir : list (string * Z);             (* (a, id(getattr(m, a))) for a in dir(m) *)
  py_disp_name : option string;           (* m.name *)
  py_funcs : option (list (list Z * Z));  (* m.funcs.items() *)
}.

(** An object the script reads nothing of (a number, a string, ...). *)
Definition plain_object : pyobj :=
  PyObj KOther "object" None None [] None None.

(** The object graph: the objects by identity. An identity outside the
    store is a plain object. *)
Abbreviation heap := (gmap Z pyobj).

Definition obj_at (h : heap) (i : Z) : pyobj := default plain_object (h !! i).

(** ** Module constants *)

Definition RST_LEVEL_SYMBOLS : list string :=
  ["="; "-"; "~"; Str.dquote; "'"; "^"].

Definition IGNORE_MODULES : gset string :=
  {[ "gpflow.covariances.dispatch";
     "gpflow.conditionals.dispatch";
     "gpflow.expectations.dispatch";
     "gpflow.kullback_leiblers.dispatch";
     "gpflow.versions" ]}.

(** ** Classifier *)

Section Classifier.

Variable h : heap.

Definition inspect_ismodule (m : Z) : bool :=
  bool_decide (py_kind (obj_at h m) = KModule).
Definition inspect_isfunction (m : Z) : bool :=
  bool_decide (py_kind (obj_at h m) = KFunction).
Definition inspect_isclass (m : Z) : bool :=
  bool_decide (py_kind (obj_at h m) = KClass).

(** ['gpflow' in name and name not in IGNORE_MODULES] *)
Definition in_namespace (name : string) : bool :=
  Str.contains "gpflow" name && negb (bool_decide (name ∈ IGNORE_MODULES)).

Definition is_documentable_module (m : Z) : result bool :=
  if inspect_ismodule m then
    name ← from_attr (py_name (obj_at h m));
    Ok (in_namespace name)
  else Ok false.

Definition is_documentable_component (m : Z) : result bool :=
  if inspect_isfunction m then
    modname ← from_attr (py_module (obj_at h m));
    Ok (in_namespace modname)
  else if inspect_isclass m then
    modname ← from_attr (py_module (obj_at h m));
    Ok (in_namespace modname)
  else if String.eqb (py_type_name (obj_at h m)) "Dispatcher" then
    Ok true
  else Ok false.


End Classifier.

(** ** Templates *)

(** The triple-quoted templates, line by line: [lines l] is the text whose
    lines are [l], so a template that starts or ends with a line feed has an
    empty first or last line. *)
Definition lines (l : list string) : string := Str.join Str.nl l.

Definition SPHINX_CLASS_STRING (object_name level : string) : string :=
  lines [ EmptyString;
          object_name;
          level;
          EmptyString;
          ".. autoclass:: " +:+ object_name;
          "   :show-inheritance:";
          "   :members:";
          EmptyString ].

Definition SPHINX_MULTIDISPATCH_STRING (object_name level content : string)
  : string :=
  lines [ EmptyString;
          object_name;
          level;
          EmptyString;
          "This function uses multiple dispatch, which will depend on the type of argument passed in:";
          EmptyString;
          content;
          EmptyString ].

Definition SPHINX_MULTIDISPATCH_COMPONENT_STRING
    (dispatch_name args true_name : string) : string :=
  lines [ EmptyString;
          ".. code-block:: python";
          EmptyString;
          "    " +:+ dispatch_name +:+ "( " +:+ args +:+ " )";
          "    # dispatch to -> " +:+ true_name +:+ "(...)";
          EmptyString;
          EmptyString;
          ".. autofunction:: " +:+ true_name;
          EmptyString ].

Definition SPHINX_FUNC_STRING (object_name level : string) : string :=
  lines [ EmptyString;
          object_name;
          level;
          EmptyString;
          ".. autofunction:: " +:+ object_name;
          EmptyString ].

Definition SPHINX_INCLUDE_MODULE_STRING (name level module : string)
  : string :=
  lines [ EmptyString;
          name;
          level;
          ".. toctree::";
          "   :maxdepth: 1";
          EmptyString;
          "   " +:+ module +:+ "/index";
          EmptyString ].

Definition SPHINX_FILE_STRING (title date content : string) : string :=
  lines [ "==========";
          title;
          "========";
          EmptyString;
          ".. THIS IS AN AUTOGENERATED RST FILE";
          ".. GENERATED BY `generate_rst.py`";
          ".. DATE: " +:+ date;
          EmptyString;
          EmptyString;
          content;
          EmptyString ].

(** ** Renderers *)

(** [l[i]] on a Python list: a negative index counts from the end, an index
    out of range raises [IndexError]. *)
Definition getitem {A} (l : list A) (i : Z) : result A :=
  let n := Z.of_nat (length l) in
  let j := if i <? 0 then i + n else i in
  if (j <? 0) || (n <=? j) then Raise IndexError
  else match l !! Z.to_nat j with
       | Some a => Ok a
       | None => Raise IndexError
       end.

Section Renderer.

Variable h : heap.

(** [RST_LEVEL_SYMBOLS[level]*6] *)
Definition level_underline (level : Z) : result string :=
  symbol ← getitem RST_LEVEL_SYMBOLS level;
  Ok (Str.repeat symbol 6).

(** [f'{o.__module__}.{o.__name__}'] *)
Definition qualified_name (o : Z) : result string :=
  modname ← from_attr (py_module (obj_at h o));
  name ← from_attr (py_name (obj_at h o));
  Ok (modname +:+ "." +:+ name).

(** One pass of the loop body of [get_multidispatch_string]. *)
Definition multidispatch_component (dispatch_name : string)
    (item : list Z * Z) : result string :=
  let '(args, fname) := item in
  names ← mapM (fun a => from_attr (py_name (obj_at h a))) args;
  let arg_names := Str.join ", " names in
  alias_name ← qualified_name fname;
  Ok (SPHINX_MULTIDISPATCH_COMPONENT_STRING dispatch_name arg_names alias_name).

(** The parameter [level] receives the underline the caller built. *)
Definition get_multidispatch_string (md_component module : Z)
    (level : string) : result string :=
  module_name ← from_attr (py_name (obj_at h module));
  md_name ← from_attr (py_disp_name (obj_at h md_component));
  let dispatch_name := module_name +:+ "." +:+ md_name in
  items ← from_attr (py_funcs (obj_at h md_component));
  content_list ← mapM (multidispatch_component dispatch_name) items;
  let content := Str.join Str.nl content_list in
  Ok (SPHINX_MULTIDISPATCH_STRING dispatch_name level content).

Definition get_component_rst_string (module component : Z) (level : Z)
  : result string :=
  module_name ← from_attr (py_name (obj_at h module));
  component_name ← from_attr (py_name (obj_at h component));
  let object_name := module_name +:+ "." +:+ component_name in
  underline ← level_underline level;
  if inspect_isclass h component then
    Ok (SPHINX_CLASS_STRING object_name underline)
  else if inspect_isfunction h component then
    Ok (SPHINX_FUNC_STRING object_name underline)
  else if String.eqb (py_type_name (obj_at h component)) "Dispatcher" then
    get_multidispatch_string component module underline
  else Ok EmptyString.

Definition get_module_rst_string (module : Z) (level : Z) : result string :=
  underline ← level_underline level;
  name ← from_attr (py_name (obj_at h module));
  Ok (SPHINX_INCLUDE_MODULE_STRING name underline
        (List.last (Str.split "." name) EmptyString)).

(** [[getattr(node, a) for a in dir(node) if not a.startswith('_')]], as
    identities. *)
Definition get_public_attributes (node : Z) : list Z :=
  (List.filter (fun a => negb (Str.startswith "_" a.1))
               (py_dir (obj_at h node))).*2.

End Renderer.

(** ** Traversal *)

(** One pass of the [while] loop over a documentable module: the node and
    its level, the entries of [rst_components] and of [rst_modules], each
    with the identity of the child it renders, and the file written, as
    [(path, text)]. *)
Record visit := Visit {
  v_node : Z;
  v_level : Z;
  v_components : list (Z * string);
  v_modules : list (Z * string);
  v_file : option (string * string);
}.

(** How a run ends: the loop returns, with [enqueued_items] as the passes
    left it, or an exception escapes. Either way the passes completed so
    far, and the files they wrote, are kept. *)
Inductive run :=
| Returned (trace : list visit) (enqueued_items : gset Z)
| Raised (trace : list visit) (e : exn).

Definition run_trace (r : run) : list visit :=
  match r with
  | Returned trace _ => trace
  | Raised trace _ => trace
  end.

(** The state the [for] loop of [traverse_module_bfs] updates. *)
Record scan_state := ScanState {
  s_queue : list (Z * Z);
  s_enqueued : gset Z;
  s_components : list (Z * string);
  s_modules : list (Z * string);
}.

Section Traverser.

Variable h : heap.
Variable RST_PATH : string.
Variable DATE_STRING : string.

(** The test [do_visit_module] makes of one child. *)
Definition visit_worthy (module : Z) (enqueued_items : gset Z) (child : Z)
  : result bool :=
  m ← is_documentable_module h child;
  if m && negb (bool_decide (child ∈ enqueued_items)) then Ok true
  else
    c ← is_documentable_component h child;
    if c && negb (bool_decide (child ∈ enqueued_items)) then
      child_module ← from_attr (py_module (obj_at h child));
      if Str.contains "__init__" child_module then Ok true
      else
        module_name ← from_attr (py_name (obj_at h module));
        Ok (Str.contains module_name child_module)
    else Ok false.

Fixpoint do_visit_loop (module : Z) (enqueued_items : gset Z)
    (children : list Z) : result bool :=
  match children with
  | [] => Ok false
  | child :: rest =>
      b ← visit_worthy module enqueued_items child;
      if b : bool then Ok true
      else do_visit_loop module enqueued_items rest
  end.

Definition do_visit_module (module : Z) (enqueued_items : gset Z)
  : result bool :=
  do_visit_loop module enqueued_items (get_public_attributes h module).

(** [write_to_rst_file]: the path and the text of the file. The caller
    passes a string for [rst_content], which [''.join] returns as it is. *)
Definition write_to_rst_file (node_name rst_content : string)
  : string * string :=
  let path := RST_PATH +:+ "/" +:+ Str.replace "." "/" node_name in
  let rst_file := SPHINX_FILE_STRING node_name DATE_STRING rst_content in
  (path +:+ "/index.rst", rst_file).

(** The [for] loop of [traverse_module_bfs]. *)
Fixpoint scan_children (node level : Z) (children : list Z)
    (st : scan_state) : result scan_state :=
  match children with
  | [] => Ok st
  | child :: rest =>
      if bool_decide (child ∈ s_enqueued st) then
        scan_children node level rest st
      else
        c ← is_documentable_component h child;
        if c : bool then
          rst ← get_component_rst_string h node child level;
          scan_children node level rest
            (ScanState (s_queue st) ({[child]} ∪ s_enqueued st)
               (s_components st ++ [(child, rst)]) (s_modules st))
        else
          m ← is_documentable_module h child;
          if m : bool then
            v ← do_visit_module child (s_enqueued st);
            if v : bool then
              rst ← get_module_rst_string h child level;
              scan_children node level rest
                (ScanState (s_queue st ++ [(child, level + 1)])
                   ({[child]} ∪ s_enqueued st)
                   (s_components st) (s_modules st ++ [(child, rst)]))
            else scan_children node level rest st
          else scan_children node level rest st
  end.

(** The body of the [while] loop once the node is known to be a
    documentable module. *)
Definition visit_module (node level : Z) (queue : list (Z * Z))
    (enqueued_items : gset Z) : result (scan_state * visit) :=
  st ← scan_children node level (get_public_attributes h node)
         (ScanState queue enqueued_items [] []);
  let rst_content :=
    Str.join Str.nl ((s_components st).*2 ++ (s_modules st).*2) in
  if String.eqb rst_content EmptyString then
    Ok (st, Visit node level (s_components st) (s_modules st) None)
  else
    node_name ← from_attr (py_name (obj_at h node));
    Ok (st, Visit node level (s_components st) (s_modules st)
              (Some (write_to_rst_file node_name rst_content))).

(** The [while] loop, at most [fuel] passes. *)
Fixpoint bfs (fuel : nat) (queue : list (Z * Z)) (enqueued_items : gset Z)
    (trace : list visit) : option run :=
  match queue with
  | [] => Some (Returned trace enqueued_items)
  | (node, level) :: queue =>
      match fuel with
      | O => None
      | S fuel =>
          if negb (bool_decide (is_Some (py_name (obj_at h node)))) then
            bfs fuel queue enqueued_items trace
          else
            match is_documentable_module h node with
            | Raise e => Some (Raised trace e)
            | Ok false => bfs fuel queue enqueued_items trace
            | Ok true =>
                match visit_module node level queue enqueued_items with
                | Raise e => Some (Raised trace e)
                | Ok (st, v) =>
                    bfs fuel (s_queue st) (s_enqueued st) (trace ++ [v])
                end
            end
      end
  end.

(** Every pass takes one entry off the queue, and every entry it adds is
    an object of the store new to [enqueued_items]: as many passes as
    there are entries and objects suffice. *)
Definition traverse_module_bfs (queue : list (Z * Z))
    (enqueued_items : gset Z) : option run :=
  bfs (length queue + size h) queue enqueued_items [].

End Traverser.

(** The files a run leaves: later writes to a path replace earlier ones. *)
Definition write_file (fs : gmap string string) (v : visit)
  : gmap string string :=
  match v_file v with
  | Some (path, text) => <[path := text]> fs
  | None => fs
  end.

Definition files_of (trace : list visit) : gmap string string :=
  foldl write_file ∅ trace.

(** ** Statements of the specification and example object graphs *)

(** The condition of the specification for a documentable component, word
    for word: a function or class declared in the namespace and not
    excluded, or any object whose type is named [Dispatcher]. *)
Definition spec_documentable_component (h : heap) (m : Z) : Prop :=
  ((py_kind (obj_at h m) = KFunction ∨ py_kind (obj_at h m) = KClass) ∧
   ∃ modname, py_module (obj_at h m) = Some modname ∧
              Str.contains "gpflow" modname = true ∧
              modname ∉ IGNORE_MODULES)
  ∨ py_type_name (obj_at h m) = "Dispatcher".

(** A class [K] built by a metaclass that is itself named [Dispatcher]
    ([class Dispatcher(type)], [class K(metaclass=Dispatcher)]), declared
    outside the namespace. *)
Definition metaclass_heap : heap :=
  {[ 1 := PyObj KClass "Dispatcher" (Some "K") (Some "numpy") [] None None ]}.

(** A dispatcher declared outside the namespace. *)
Definition dispatcher_heap : heap :=
  {[ 1 := PyObj KOther "Dispatcher" (Some "conditional")
            (Some "multipledispatch.dispatcher") [] (Some "conditional")
            (Some []) ]}.

(** What [do_visit_module] accepts in a child: (a) an unvisited
    documentable module, or (b) an unvisited documentable component whose
    [__module__] contains [__init__] or contains the name of the candidate
    module. A child that is both a documentable module and a component is
    accepted under (a). *)
Definition look_ahead_hit (h : heap) (module : Z) (enqueued_items : gset Z)
    (child : Z) : Prop :=
  (is_documentable_module h child = Ok true ∧ child ∉ enqueued_items)
  ∨ ((∃ m, is_documentable_module h child = Ok m) ∧
     is_documentable_component h child = Ok true ∧
     (child ∉ enqueued_items) ∧
     (∃ child_module, py_module (obj_at h child) = Some child_module ∧
        (Str.contains "__init__" child_module = true ∨
         (∃ module_name, py_name (obj_at h module) = Some module_name ∧
                         Str.contains module_name child_module = true)))).

(** The look-ahead condition of the specification, word for word: some
    public attribute is (a) an unvisited documentable module, or (b) an
    unvisited documentable component declared in the root package (the
    module [gpflow], or its [__init__] file) or in the candidate module
    itself. *)
Definition spec_do_visit_module (h : heap) (module : Z) (enqueued_items : gset Z)
  : Prop :=
  ∃ child, child ∈ get_public_attributes h module ∧
    ((is_documentable_module h child = Ok true ∧ child ∉ enqueued_items)
     ∨ (is_documentable_component h child = Ok true ∧
        (child ∉ enqueued_items) ∧
        (∃ child_module, py_module (obj_at h child) = Some child_module ∧
           (child_module = "gpflow" ∨
            Str.contains "__init__" child_module = true ∨
            py_name (obj_at h module) = Some child_module)))).

(** The package [gpflow.kernels] re-exporting the class [Matern52] of its
    own submodule [gpflow.kernels.stationaries]. *)
Definition kernels_heap : heap :=
  {[ 10 := PyObj KModule "module" (Some "gpflow.kernels") None
             [("Matern52", 11)] None None;
     11 := PyObj KClass "type" (Some "Matern52")
             (Some "gpflow.kernels.stationaries") [] None None ]}.

(** A registered pair the renderer can read: every argument type has a
    [__name__], the implementation a [__module__] and a [__name__]. *)
Definition readable_pair (h : heap) (item : list Z * Z) : Prop :=
  Forall (fun a => is_Some (py_name (obj_at h a))) item.1 ∧
  is_Some (py_module (obj_at h item.2)) ∧
  is_Some (py_name (obj_at h item.2)).

(** A small library: the package [gpflow] with the packages
    [gpflow.conditionals] and [gpflow.kernels] and the excluded module
    [gpflow.versions]. [gpflow.kernels] re-exports [Matern52], declared in
    [gpflow.kernels.stationaries]; [gpflow.conditionals] holds a dispatcher
    with two registered implementations. *)
Definition library_heap : heap :=
  list_to_map
    [ (1, PyObj KModule "module" (Some "gpflow") None
            [("__name__", 90); ("conditionals", 20); ("kernels", 10);
             ("versions", 30)] None None);
      (10, PyObj KModule "module" (Some "gpflow.kernels") None
             [("Matern52", 11); ("stationaries", 12)] None None);
      (11, PyObj KClass "type" (Some "Matern52")
             (Some "gpflow.kernels.stationaries") [] None None);
      (12, PyObj KModule "module" (Some "gpflow.kernels.stationaries") None
             [("Matern52", 11)] None None);
      (20, PyObj KModule "module" (Some "gpflow.conditionals") None
             [("base_conditional", 24); ("conditional", 21)] None None);
      (21, PyObj KOther "Dispatcher" (Some "conditional")
             (Some "multipledispatch.dispatcher") []
             (Some "conditional") (Some [([40; 41], 22); ([41], 23)]));
      (22, PyObj KFunction "function" (Some "_conditional")
             (Some "gpflow.conditionals.conditionals") [] None None);
      (23, PyObj KFunction "function" (Some "_sample_conditional")
             (Some "gpflow.conditionals.sample_conditionals") [] None None);
      (24, PyObj KFunction "function" (Some "base_conditional")
             (Some "gpflow.conditionals.util") [] None None);
      (30, PyObj KModule "module" (Some "gpflow.versions") None
             [("base_conditional", 24)] None None);
      (40, PyObj KClass "type" (Some "object") (Some "builtins") []
             None None);
      (41, PyObj KClass "type" (Some "Kernel")
             (Some "gpflow.kernels.base") [] None None) ].

(** A library in which the package [gpflow.b] re-exports the class [X] of
    the sibling module [gpflow.a.sub] and holds nothing else: [X] is two
    attribute steps from the root through [gpflow.b] and three through
    [gpflow.a] and [gpflow.a.sub]. *)
Definition sibling_alias_heap : heap :=
  list_to_map
    [ (1, PyObj KModule "module" (Some "gpflow") None
            [("a", 2); ("b", 3)] None None);
      (2, PyObj KModule "module" (Some "gpflow.a") None
            [("sub", 4)] None None);
      (3, PyObj KModule "module" (Some "gpflow.b") None
            [("X", 5)] None None);
      (4, PyObj KModule "module" (Some "gpflow.a.sub") None
            [("X", 5)] None None);
      (5, PyObj KClass "type" (Some "X") (Some "gpflow.a.sub") []
            None None) ].

(** The identities a pass documents: the components it renders and the
    modules it links. *)
Definition visit_ids (v : visit) : list Z :=
  (v_components v).*1 ++ (v_modules v).*1.

(** [documented_in trace module x]: the pass over [module] documents [x]. *)
Definition documented_in (trace : list visit) (module x : Z) : Prop :=
  ∃ v, v ∈ trace ∧ v_node v = module ∧ x ∈ visit_ids v.




(** The package [gpflow.covariances]: the dispatcher [Kuf] and the module
    [gpflow.covariances.kufs] that declares the functions registered in
    it. *)
Definition covariances_heap : heap :=
  list_to_map
    [ (1, PyObj KModule "module" (Some "gpflow") None
            [("covariances", 2)] None None);
      (2, PyObj KModule "module" (Some "gpflow.covariances") None
            [("Kuf", 3); ("kufs", 4)] None None);
      (3, PyObj KOther "Dispatcher" (Some "Kuf")
            (Some "multipledispatch.dispatcher") []
            (Some "Kuf") (Some [([10; 11], 5); ([12; 13], 6)]));
      (4, PyObj KModule "module" (Some "gpflow.covariances.kufs") None
            [("Kuf", 3); ("Kuf_kernel_inducingpoints", 5);
             ("Kuf_sqexp_multiscale", 6)] None None);
      (5, PyObj KFunction "function" (Some "Kuf_kernel_inducingpoints")
            (Some "gpflow.covariances.kufs") [] None None);
      (6, PyObj KFunction "function" (Some "Kuf_sqexp_multiscale")
            (Some "gpflow.covariances.kufs") [] None None);
      (10, PyObj KClass "type" (Some "InducingPoints")
             (Some "gpflow.inducing_variables.inducing_variables") []
             None None);
      (11, PyObj KClass "type" (Some "Kernel")
             (Some "gpflow.kernels.base") [] None None);
      (12, PyObj KClass "type" (Some "Multiscale")
             (Some "gpflow.inducing_variables.inducing_variables") []
             None None);
      (13, PyObj KClass "type" (Some "SquaredExponential")
             (Some "gpflow.kernels.stationaries") [] None None) ].

(** [chain h a n b]: [b] is [n] public-attribute steps from [a]. *)
Fixpoint chain (h : heap) (a : Z) (n : nat) (b : Z) : Prop :=
  match n with
  | O => a = b
  | S k => ∃ m, m ∈ get_public_attributes h a ∧ chain h m k b
  end.

(** The shallowest-path rule of the specification, word for word: a
    documented object that is an attribute of a module [p1] at depth [d1]
    and of a module [p2] at a greater depth [d2] is documented in the
    document of [p1]. *)
Definition spec_shallowest_path_wins (h : heap) (root : Z)
    (trace : list visit) : Prop :=
  ∀ x p1 d1 p2 d2,
    chain h root d1 p1 → x ∈ get_public_attributes h p1 →
    chain h root d2 p2 → x ∈ get_public_attributes h p2 →
    (d1 < d2)%nat →
    (∃ m, documented_in trace m x) →
    documented_in trace p1 x.

(** [settled h enqueued_items c]: the [for] loop has nothing left to do
    with the child [c]: it is in [enqueued_items], or it is no documentable
    component and no documentable module that the look-ahead accepts. *)
Definition settled (h : heap) (enqueued_items : gset Z) (c : Z) : Prop :=
  c ∈ enqueued_items
  ∨ (is_documentable_component h c = Ok false ∧
     (is_documentable_module h c = Ok false ∨
      do_visit_module h c enqueued_items = Ok false)).

(** The [for] loop of [traverse_module_bfs] as a relation between the state
    before and after, one rule per path through its body. *)
Inductive scanned (h : heap) (node level : Z)
  : list Z → scan_state → scan_state → Prop :=
| scanned_nil st :
    scanned h node level [] st st
| scanned_seen child rest st st' :
    child ∈ s_enqueued st →
    scanned h node level rest st st' →
    scanned h node level (child :: rest) st st'
| scanned_component child rest st st' rst :
    child ∉ s_enqueued st →
    is_documentable_component h child = Ok true →
    get_component_rst_string h node child level = Ok rst →
    scanned h node level rest
      (ScanState (s_queue st) ({[child]} ∪ s_enqueued st)
         (s_components st ++ [(child, rst)]) (s_modules st)) st' →
    scanned h node level (child :: rest) st st'
| scanned_module child rest st st' rst :
    child ∉ s_enqueued st →
    is_documentable_component h child = Ok false →
    is_documentable_module h child = Ok true →
    do_visit_module h child (s_enqueued st) = Ok true →
    get_module_rst_string h child level = Ok rst →
    scanned h node level rest
      (ScanState (s_queue st ++ [(child, level + 1)])
         ({[child]} ∪ s_enqueued st)
         (s_components st) (s_modules st ++ [(child, rst)])) st' →
    scanned h node level (child :: rest) st st'
| scanned_ignored child rest st st' :
    child ∉ s_enqueued st →
    is_documentable_component h child = Ok false →
    is_documentable_module h child = Ok false ∨
      do_visit_module h child (s_enqueued st) = Ok false →
    scanned h node level rest st st' →
    scanned h node level (child :: rest) st st'.

(** What the [for] loop adds to its state: the entries [new_c] of
    [rst_components] and [new_m] of [rst_modules], one queue entry per
    linked module, and their identities, all new, in [enqueued_items]. *)
Definition scan_adds (h : heap) (level : Z) (st st' : scan_state)
    (new_c new_m : list (Z * string)) : Prop :=
  s_components st' = s_components st ++ new_c ∧
  s_modules st' = s_modules st ++ new_m ∧
  s_queue st' = s_queue st ++ ((fun e => (e.1, level + 1)) <$> new_m) ∧
  s_enqueued st' = list_to_set (new_c.*1 ++ new_m.*1) ∪ s_enqueued st ∧
  NoDup (new_c.*1 ++ new_m.*1) ∧
  Forall (fun x => ¬ settled h (s_enqueued st) x) (new_c.*1 ++ new_m.*1) ∧
  Forall (fun e => is_documentable_component h e.1 = Ok true ∧
                   e.2 ≠ EmptyString) new_c ∧
  Forall (fun e => is_documentable_module h e.1 = Ok true ∧
                   e.2 ≠ EmptyString) new_m.

(** What a pass leaves for the module [node]: no file when it collected
    nothing, otherwise the file [write_to_rst_file] builds from the name of
    the node and the collected entries joined by line feeds. *)
Definition visit_emits (h : heap) (RST_PATH DATE_STRING : string)
    (v : visit) : Prop :=
  match v_file v with
  | None => v_components v = [] ∧ v_modules v = []
  | Some file =>
      (v_components v ≠ [] ∨ v_modules v ≠ []) ∧
      ∃ name, py_name (obj_at h (v_node v)) = Some name ∧
        file = write_to_rst_file RST_PATH DATE_STRING name
                 (Str.join Str.nl
                    ((v_components v).*2 ++ (v_modules v).*2))
  end.

(** [with_queue f st]: the state [st] with its queue replaced by [f] of
    it. *)
Definition with_queue (f : list (Z * Z) → list (Z * Z)) (st : scan_state)
  : scan_state :=
  ScanState (f (s_queue st)) (s_enqueued st) (s_components st) (s_modules st).

(** Two texts that are the same but for the date after [.. DATE: ]. *)
Definition date_line_differs (d1 d2 : string) (t1 t2 : string) : Prop :=
  ∃ before after,
    t1 = before +:+ ".. DATE: " +:+ d1 +:+ Str.nl +:+ after ∧
    t2 = before +:+ ".. DATE: " +:+ d2 +:+ Str.nl +:+ after.

(** Two passes that are the same but for the date in the file written. *)
Definition same_visit_but_date (d1 d2 : string) (v1 v2 : visit) : Prop :=
  v_node v1 = v_node v2 ∧ v_level v1 = v_level v2 ∧
  v_components v1 = v_components v2 ∧ v_modules v1 = v_modules v2 ∧
  option_Forall2 (fun f1 f2 => f1.1 = f2.1 ∧ date_line_differs d1 d2 f1.2 f2.2)
    (v_file v1) (v_file v2).

(** Two runs that end the same way after passes that are the same but for
    the date. *)
Definition same_run_but_date (d1 d2 : string) (r1 r2 : run) : Prop :=
  match r1, r2 with
  | Returned t1 e1, Returned t2 e2 =>
      e1 = e2 ∧ Forall2 (same_visit_but_date d1 d2) t1 t2
  | Raised t1 x1, Raised t2 x2 =>
      x1 = x2 ∧ Forall2 (same_visit_but_date d1 d2) t1 t2
  | _, _ => False
  end.

(** The queue of a breadth-first walk: entries at the current level, then
    entries one level deeper. *)
Definition two_levels (cur : Z) (queue : list (Z * Z)) : Prop :=
  ∃ q0 q1, queue = q0 ++ q1 ∧
    Forall (fun e => e.2 = cur) q0 ∧ Forall (fun e => e.2 = cur + 1) q1.

(** [ordered_pairs R l]: [R] relates every element of [l] to every later
    one. *)
Definition ordered_pairs {A} (R : A → A → Prop) (l : list A) : Prop :=
  ∀ (i j : nat) a b, (i < j)%nat → l !! i = Some a → l !! j = Some b → R a b.

(** [precedes h v' v]: the pass [v'] is at a level no deeper than [v], and
    [v] documents no public attribute of the module of [v']. *)
Definition precedes (h : heap) (v' v : visit) : Prop :=
  v_level v' ≤ v_level v ∧
  ∀ x, x ∈ visit_ids v → x ∉ get_public_attributes h (v_node v').

(** [at_depth h root node level]: [level] is the length of a path of
    public attributes from [root] to [node]. *)
Definition at_depth (h : heap) (root node level : Z) : Prop :=
  0 ≤ level ∧ chain h root (Z.to_nat level) node.

(** What the loop maintains when it starts from a queue at one level. *)
Definition bfs_order (h : heap) (root : Z) (queue : list (Z * Z))
    (enq : gset Z) (trace : list visit) : Prop :=
  (∃ cur, two_levels cur queue ∧ Forall (fun v => v_level v ≤ cur) trace) ∧
  ordered_pairs (precedes h) trace ∧
  Forall (fun v => Forall (settled h enq)
                     (get_public_attributes h (v_node v))) trace ∧
  Forall (fun e => at_depth h root e.1 e.2) queue ∧
  Forall (fun v => at_depth h root (v_node v) (v_level v)) trace.


(** A run at a glance: for each pass the node, its level, the identities
    rendered and linked, and the path of the file written. *)
Definition run_summary (r : run)
  : list (Z * Z * list Z * list Z * option string) :=
  (fun v => (v_node v, v_level v, (v_components v).*1, (v_modules v).*1,
             fst <$> v_file v)) <$> run_trace r.

(** The same object graph under other identities: [f] gives the new
    identity of every object. *)
Definition rename_obj (f : Z → Z) (o : pyobj) : pyobj :=
  PyObj (py_kind o) (py_type_name o) (py_name o) (py_module o)
    (prod_map id f <$> py_dir o) (py_disp_name o)
    (fmap (M := list) (prod_map (fmap (M := list) f) f) <$> py_funcs o).

Definition rename_heap (f : Z → Z) (h : heap) : heap :=
  kmap f (rename_obj f <$> h).

Definition rename_state (f : Z → Z) (st : scan_state) : scan_state :=
  ScanState (prod_map f id <$> s_queue st) (set_map f (s_enqueued st))
    (prod_map f id <$> s_components st) (prod_map f id <$> s_modules st).

Definition rename_visit (f : Z → Z) (v : visit) : visit :=
  Visit (f (v_node v)) (v_level v) (prod_map f id <$> v_components v)
    (prod_map f id <$> v_modules v) (v_file v).

Definition rename_run (f : Z → Z) (r : run) : run :=
  match r with
  | Returned trace enq => Returned (rename_visit f <$> trace) (set_map f enq)
  | Raised trace e => Raised (rename_visit f <$> trace) e
  end.

(** ** The rest of the script: globals and entry point *)

(** The module-level state a run reads: [RST_PATH], which
    [write_to_rst_file] reads at each call. *)
Record globals := Globals { g_RST_PATH : string }.

(** The globals as the script sets them when it is loaded. *)
Definition initial_globals : globals := Globals "source/".

(** [set_global_path path]: [global RST_PATH; RST_PATH = path]. *)
Definition set_global_path (path : string) (g : globals) : globals :=
  Globals path.

(** The entry point, [traverse_module_bfs([(gpflow, 0)], set([id(gpflow)]))],
    under the globals [g]. *)
Definition main (h : heap) (g : globals) (DATE_STRING : string) (gpflow : Z)
  : option run :=
  traverse_module_bfs h (g_RST_PATH g) DATE_STRING [(gpflow, 0)] {[gpflow]}.

(** [no_char c s]: the character [c] does not occur in [s]. *)
Definition no_char (c : ascii) (s : string) : Prop :=
  c ∉ list_ascii_of_string s.

(** Two passes that are the same but for the output root in front of the
    path of the file written. *)
Definition same_visit_but_root (p1 p2 : string) (v1 v2 : visit) : Prop :=
  v_node v1 = v_node v2 ∧ v_level v1 = v_level v2 ∧
  v_components v1 = v_components v2 ∧ v_modules v1 = v_modules v2 ∧
  option_Forall2
    (fun f1 f2 => (∃ rest, f1.1 = p1 +:+ rest ∧ f2.1 = p2 +:+ rest) ∧
                  f1.2 = f2.2)
    (v_file v1) (v_file v2).

Definition same_run_but_root (p1 p2 : string) (r1 r2 : run) : Prop :=
  match r1, r2 with
  | Returned t1 e1, Returned t2 e2 =>
      e1 = e2 ∧ Forall2 (same_visit_but_root p1 p2) t1 t2
  | Raised t1 x1, Raised t2 x2 =>
      x1 = x2 ∧ Forall2 (same_visit_but_root p1 p2) t1 t2
  | _, _ => False
  end.

(** [linked_from trace j v]: the module of the pass [v], the [j]-th of
    [trace], was linked by an earlier pass, one level up. *)
Definition linked_from (trace : list visit) (j : nat) (v : visit) : Prop :=
  ∃ (i : nat) vi, (i < j)%nat ∧ trace !! i = Some vi ∧
    v_node v ∈ (v_modules vi).*1 ∧ v_level v = v_level vi + 1.

(** [enqueued_after root trace n]: what [enqueued_items] holds in a run
    from the root when the first [n] passes are done: the root and
    whatever those passes documented. *)
Definition enqueued_after (root : Z) (trace : list visit) (n : nat) : gset Z :=
  {[root]} ∪ list_to_set (mjoin (visit_ids <$> take n trace)).

(** [accepted_by h root trace i m]: the [i]-th pass of [trace] linked the
    module [m] after the look-ahead [do_visit_module] returned [True] for
    it, under an [enqueued_items] that held at least what it held when the
    pass began and at most what it held when the pass ended. *)
Definition accepted_by (h : heap) (root : Z) (trace : list visit) (i : nat)
    (m : Z) : Prop :=
  ∃ vi enq, trace !! i = Some vi ∧ m ∈ (v_modules vi).*1 ∧
    enqueued_after root trace i ⊆ enq ∧
    enq ⊆ enqueued_after root trace (S i) ∧
    do_visit_module h m enq = Ok true.

(** [accepted_from h root trace j v]: the module of the pass [v], the
    [j]-th of [trace], was linked by an earlier pass, one level up, after
    the look-ahead accepted it. *)
Definition accepted_from (h : heap) (root : Z) (trace : list visit) (j : nat)
    (v : visit) : Prop :=
  ∃ (i : nat) vi, (i < j)%nat ∧ trace !! i = Some vi ∧
    v_level v = v_level vi + 1 ∧ accepted_by h root trace i (v_node v).
(** * Properties *)

(** ** Classifier *)

Lemma in_namespace_true (name : string) :
  in_namespace name = true ↔
  Str.contains "gpflow" name = true ∧ name ∉ IGNORE_MODULES.
Proof.
  unfold in_namespace.
  rewrite andb_true_iff, negb_true_iff, bool_decide_eq_false.
  reflexivity.
Qed.

(** C3, as stated, fails on a class whose metaclass is named [Dispatcher]:
    the class branch answers first and the type name is never looked at. *)
Lemma is_documentable_component_spec_counterexample :
  is_documentable_component metaclass_heap 1 = Ok false ∧
  spec_documentable_component metaclass_heap 1.
Proof. split; [reflexivity | right; reflexivity]. Qed.

(** C3 (amended): [is_documentable_component m] returns true exactly when
    [m] is a function or class whose declaring module's name contains
    [gpflow] and is not in [IGNORE_MODULES], or [m] is neither a function
    nor a class and its type is named [Dispatcher]. *)
Theorem is_documentable_component_true_iff (h : heap) (m : Z) :
  is_documentable_component h m = Ok true ↔
  ((py_kind (obj_at h m) = KFunction ∨ py_kind (obj_at h m) = KClass) ∧
   ∃ modname, py_module (obj_at h m) = Some modname ∧
              Str.contains "gpflow" modname = true ∧
              modname ∉ IGNORE_MODULES)
  ∨ (py_kind (obj_at h m) ≠ KFunction ∧ py_kind (obj_at h m) ≠ KClass ∧
     py_type_name (obj_at h m) = "Dispatcher").
Proof.
  unfold is_documentable_component, inspect_isfunction, inspect_isclass.
  destruct (py_kind (obj_at h m)) eqn:Hkind; simpl.
  - (* module: only the type name counts *)
    destruct (String.eqb_spec (py_type_name (obj_at h m)) "Dispatcher") as [Ht|Ht].
    + split; [intros _; right; done | done].
    + split; [done | intros [[[?|?] _]|(_ & _ & ?)]; done].
  - destruct (py_module (obj_at h m)) as [modname|]; simpl.
    + split.
      * intros [= Hin]. apply in_namespace_true in Hin. left.
        split; [by left | by exists modname].
      * intros [[_ (mn & [= <-] & Hc & Hi)]|(Hf & _)]; [|done].
        f_equal. apply in_namespace_true. done.
    + split; [done | intros [[_ (mn & ? & _)]|(Hf & _)]; done].
  - destruct (py_module (obj_at h m)) as [modname|]; simpl.
    + split.
      * intros [= Hin]. apply in_namespace_true in Hin. left.
        split; [by right | by exists modname].
      * intros [[_ (mn & [= <-] & Hc & Hi)]|(_ & Hf & _)]; [|done].
        f_equal. apply in_namespace_true. done.
    + split; [done | intros [[_ (mn & ? & _)]|(_ & Hf & _)]; done].
  - destruct (String.eqb_spec (py_type_name (obj_at h m)) "Dispatcher") as [Ht|Ht].
    + split; [intros _; right; done | done].
    + split; [done | intros [[[?|?] _]|(_ & _ & ?)]; done].
Qed.

(** C10, as stated, fails on the class of [metaclass_heap]: its type is
    named [Dispatcher], yet the checks of the class branch apply to it. *)
Lemma dispatcher_named_type_counterexample :
  py_type_name (obj_at metaclass_heap 1) = "Dispatcher" ∧
  is_documentable_component metaclass_heap 1 ≠ Ok true.
Proof. split; [reflexivity | discriminate]. Qed.

(** C10 (amended): an object that is neither a function nor a class and
    whose type is named [Dispatcher] is a documentable component whatever
    its declaring module: neither the namespace check nor the exclusion set
    is consulted. *)
Theorem dispatcher_always_documentable (h : heap) (m : Z) :
  py_kind (obj_at h m) ≠ KFunction →
  py_kind (obj_at h m) ≠ KClass →
  py_type_name (obj_at h m) = "Dispatcher" →
  is_documentable_component h m = Ok true.
Proof.
  intros Hf Hc Ht.
  unfold is_documentable_component, inspect_isfunction, inspect_isclass.
  rewrite !bool_decide_eq_false_2 by done.
  rewrite Ht. reflexivity.
Qed.

Lemma dispatcher_always_documentable_witness :
  py_module (obj_at dispatcher_heap 1) = Some "multipledispatch.dispatcher" ∧
  in_namespace "multipledispatch.dispatcher" = false ∧
  is_documentable_component dispatcher_heap 1 = Ok true.
Proof.
  split; [reflexivity | split; [reflexivity |]].
  apply (dispatcher_always_documentable dispatcher_heap 1);
    [discriminate | discriminate | reflexivity].
Defined.

(** ** Look-ahead test *)

Section LookAhead.

Variable h : heap.

Lemma visit_worthy_true_iff module enqueued_items child :
  visit_worthy h module enqueued_items child = Ok true ↔
  look_ahead_hit h module enqueued_items child.
Proof.
  unfold visit_worthy, look_ahead_hit.
  destruct (is_documentable_module h child) as [m|e]; simpl;
    [| split; [done | intros [[? _]|[[? ?] _]]; done]].
  destruct (decide (child ∈ enqueued_items)) as [Hin|Hin].
  - rewrite (bool_decide_eq_true_2 _ Hin), !andb_false_r. simpl.
    destruct (is_documentable_component h child) as [c|e]; simpl;
      rewrite ?andb_false_r; (split; [done | intros [[_ ?]|(_ & _ & ? & _)]; done]).
  - rewrite (bool_decide_eq_false_2 _ Hin), !andb_true_r. simpl.
    destruct m; simpl; [split; [intros _; left; done | done] |].
    destruct (is_documentable_component h child) as [[]|e]; simpl;
      try (split; [done | intros [[? _]|(_ & ? & _)]; done]).
    destruct (py_module (obj_at h child)) as [cm|]; simpl;
      [| split; [done | intros [[? _]|(_ & _ & _ & ? & ? & _)]; done]].
    destruct (Str.contains "__init__" cm) eqn:Hinit.
    + split; [intros _ | done]. right.
      repeat split; eauto.
    + destruct (py_name (obj_at h module)) as [mn|]; simpl.
      * split.
        -- intros [= Hc]. right. repeat split; eauto 10.
        -- intros [[? _]|(_ & _ & _ & cm' & [= <-] & [?|(mn' & [= <-] & Hc)])];
             [done | congruence | by rewrite Hc].
      * split; [done |].
        intros [[? _]|(_ & _ & _ & cm' & [= <-] & [?|(mn' & ? & _)])];
          [done | congruence | done].
Qed.

Lemma do_visit_loop_true_iff module enqueued_items children :
  do_visit_loop h module enqueued_items children = Ok true ↔
  ∃ pre child post,
    children = pre ++ child :: post ∧
    Forall (fun c => visit_worthy h module enqueued_items c = Ok false) pre ∧
    visit_worthy h module enqueued_items child = Ok true.
Proof.
  induction children as [|c rest IH]; simpl.
  - split; [done | intros ([|??] & ? & ? & ? & _); done].
  - destruct (visit_worthy h module enqueued_items c) as [[]|e] eqn:Hc; simpl.
    + split; [intros _ | done].
      exists [], c, rest. repeat split; done.
    + rewrite IH. split.
      * intros (pre & child & post & -> & Hpre & Hhit).
        exists (c :: pre), child, post. repeat split; [| done].
        constructor; done.
      * intros ([|c' pre] & child & post & Heq & Hpre & Hhit);
          simpl in Heq; injection Heq as <- ->; [congruence |].
        exists pre, child, post. repeat split; [| done].
        by inversion Hpre.
    + split; [done |].
      intros ([|c' pre] & child & post & Heq & Hpre & Hhit);
        simpl in Heq; injection Heq as <- ->; [congruence |].
      inversion Hpre; congruence.
Qed.

Lemma do_visit_loop_false_iff module enqueued_items children :
  do_visit_loop h module enqueued_items children = Ok false ↔
  Forall (fun c => visit_worthy h module enqueued_items c = Ok false)
         children.
Proof.
  induction children as [|c rest IH]; simpl.
  - split; [constructor | done].
  - destruct (visit_worthy h module enqueued_items c) as [[]|e] eqn:Hc; simpl.
    + split; [done | intros Hall; inversion Hall; congruence].
    + rewrite IH. split; [by constructor | intros Hall; by inversion Hall].
    + split; [done | intros Hall; inversion Hall; congruence].
Qed.

End LookAhead.

(** C4, as stated, fails: a class declared in a submodule of the candidate
    makes [do_visit_module] return true, the name of the candidate being a
    substring of the class's [__module__]; the class is declared neither in
    the root package nor in the candidate itself. *)
Lemma do_visit_module_spec_counterexample :
  do_visit_module kernels_heap 10 ∅ = Ok true ∧
  ¬ spec_do_visit_module kernels_heap 10 ∅.
Proof.
  split; [reflexivity |].
  intros (child & Hin & Hhit).
  change (get_public_attributes kernels_heap 10) with [11] in Hin.
  apply list_elem_of_singleton in Hin as ->.
  destruct Hhit as [[Hm _]|(_ & _ & cm & Hcm & Hwhere)].
  - vm_compute in Hm. discriminate.
  - vm_compute in Hcm. injection Hcm as <-.
    destruct Hwhere as [?|[?|?]]; discriminate.
Qed.

(** C4 (amended): [do_visit_module] scans the public attributes in order
    and returns true exactly when it reaches, with the test false on every
    earlier attribute, an attribute that is (a) a documentable module whose
    identity is not in [enqueued_items], or (b) a documentable component
    whose identity is not in [enqueued_items] and whose [__module__]
    contains [__init__] or contains the candidate module's name as a
    substring; it returns false exactly when the test is false on every
    public attribute. *)
Theorem do_visit_module_true_iff (h : heap) (module : Z)
    (enqueued_items : gset Z) :
  (do_visit_module h module enqueued_items = Ok true ↔
   ∃ pre child post,
     get_public_attributes h module = pre ++ child :: post ∧
     Forall (fun c => visit_worthy h module enqueued_items c = Ok false) pre ∧
     look_ahead_hit h module enqueued_items child)
  ∧ (do_visit_module h module enqueued_items = Ok false ↔
     Forall (fun c => ¬ look_ahead_hit h module enqueued_items c ∧
                      ∃ b, visit_worthy h module enqueued_items c = Ok b)
            (get_public_attributes h module)).
Proof.
  unfold do_visit_module. split.
  - rewrite do_visit_loop_true_iff.
    split; intros (pre & child & post & Heq & Hpre & Hhit);
      exists pre, child, post; repeat split; try done;
      by apply visit_worthy_true_iff.
  - rewrite do_visit_loop_false_iff. apply Forall_iff. intros c.
    rewrite <- visit_worthy_true_iff. split.
    + intros Hc. rewrite Hc. split; [done | by exists false].
    + intros [Hn [[] Hb]]; done.
Qed.

(** ** Renderers *)

Lemma getitem_in_range {A} (l : list A) (i : Z) :
  0 ≤ i < Z.of_nat (length l) →
  ∃ a, l !! Z.to_nat i = Some a ∧ getitem l i = Ok a.
Proof.
  intros [Hlo Hhi]. unfold getitem.
  destruct (Z.ltb_spec i 0) as [?|_]; [lia |].
  destruct (Z.ltb_spec i 0) as [?|_]; [lia |].
  destruct (Z.leb_spec (Z.of_nat (length l)) i) as [?|_]; [lia |]. simpl.
  destruct (l !! Z.to_nat i) as [a|] eqn:Hl; [by exists a |].
  apply lookup_ge_None in Hl. lia.
Qed.




(** [mapM] in the error monad: every call returns and the results are
    collected in order. *)
Lemma mapM_Ok {A B} (f : A → result B) (l : list A) (k : list B) :
  mapM f l = Ok k ↔ Forall2 (fun a b => f a = Ok b) l k.
Proof.
  revert k. induction l as [|a l IH]; intros k; simpl.
  - split; [intros [= <-]; constructor | intros Hk; by inversion Hk].
  - destruct (f a) as [b|e] eqn:Hfa; simpl.
    + destruct (mapM f l) as [k'|e] eqn:Hl; simpl.
      * split.
        -- intros [= <-]. constructor; [done | by apply IH].
        -- intros Hk. inversion Hk as [|? b' ? k'' Hb Hrest]; subst.
           apply IH in Hrest.
           assert (b = b') as -> by congruence.
           assert (k' = k'') as -> by congruence. reflexivity.
      * split; [done |]. intros Hk.
        inversion Hk as [|? b' ? k'' Hb Hrest]; subst.
        apply IH in Hrest. done.
    + split; [done |]. intros Hk. inversion Hk; congruence.
Qed.

Lemma mapM_Ok_exists {A B} (f : A → result B) (l : list A) :
  Forall (fun a => ∃ b, f a = Ok b) l → ∃ k, mapM f l = Ok k.
Proof.
  induction 1 as [|a l [b Hb] _ [k Hk]]; simpl.
  - by eexists.
  - rewrite Hb. simpl. rewrite Hk. by eexists.
Qed.

Lemma append_assoc (a b c : string) : (a +:+ b) +:+ c = a +:+ (b +:+ c).
Proof.
  induction a as [|x a IH]; [reflexivity |].
  change (String x ((a +:+ b) +:+ c) = String x (a +:+ (b +:+ c))).
  by f_equal.
Qed.

(** The templates of the multi-dispatch section as running text, the line
    feeds written out. *)
Lemma SPHINX_MULTIDISPATCH_STRING_text (object_name level content : string) :
  SPHINX_MULTIDISPATCH_STRING object_name level content =
  String "010" EmptyString +:+ object_name +:+
  String "010" EmptyString +:+ level +:+
  String "010" EmptyString +:+ String "010" EmptyString +:+
  "This function uses multiple dispatch, which will depend on the type of argument passed in:" +:+
  String "010" EmptyString +:+ String "010" EmptyString +:+
  content +:+ String "010" EmptyString.
Proof. reflexivity. Qed.

Lemma SPHINX_MULTIDISPATCH_COMPONENT_STRING_text
    (dispatch_name args true_name : string) :
  SPHINX_MULTIDISPATCH_COMPONENT_STRING dispatch_name args true_name =
  String "010" EmptyString +:+ ".. code-block:: python" +:+
  String "010" EmptyString +:+ String "010" EmptyString +:+
  "    " +:+ dispatch_name +:+ "( " +:+ args +:+ " )" +:+
  String "010" EmptyString +:+
  "    # dispatch to -> " +:+ true_name +:+ "(...)" +:+
  String "010" EmptyString +:+ String "010" EmptyString +:+
  String "010" EmptyString +:+
  ".. autofunction:: " +:+ true_name +:+ String "010" EmptyString.
Proof.
  unfold SPHINX_MULTIDISPATCH_COMPONENT_STRING, lines, Str.join.
  cbn [String.concat]. rewrite !append_assoc. reflexivity.
Qed.

(** C6: for a dispatcher with [N] registered pairs the rendered section
    is, character for character, the heading, the underline, the note on
    multiple dispatch and then exactly [N] blocks joined by line feeds, in
    the order of [funcs.items()]; the block of a pair shows the call with
    the [__name__]s of the pair's argument types and names the
    implementation of that pair, [__module__] dot [__name__], both after
    [dispatch to ->] and in its [autofunction] directive. *)
Theorem multidispatch_one_block_per_pair (h : heap) (md_component module : Z)
    (level module_name md_name : string) (items : list (list Z * Z)) :
  py_name (obj_at h module) = Some module_name →
  py_disp_name (obj_at h md_component) = Some md_name →
  py_funcs (obj_at h md_component) = Some items →
  Forall (readable_pair h) items →
  ∃ blocks : list string,
    get_multidispatch_string h md_component module level =
      Ok (String "010" EmptyString +:+
          module_name +:+ "." +:+ md_name +:+ String "010" EmptyString +:+
          level +:+ String "010" EmptyString +:+
          String "010" EmptyString +:+
          "This function uses multiple dispatch, which will depend on the type of argument passed in:" +:+
          String "010" EmptyString +:+
          String "010" EmptyString +:+
          String.concat (String "010" EmptyString) blocks +:+
          String "010" EmptyString) ∧
    length blocks = length items ∧
    ∀ (i : nat) args fname, items !! i = Some (args, fname) →
      ∃ names fmodule ffunc,
        Forall2 (fun a name => py_name (obj_at h a) = Some name) args names ∧
        py_module (obj_at h fname) = Some fmodule ∧
        py_name (obj_at h fname) = Some ffunc ∧
        blocks !! i = Some (
          String "010" EmptyString +:+
          ".. code-block:: python" +:+ String "010" EmptyString +:+
          String "010" EmptyString +:+
          "    " +:+ module_name +:+ "." +:+ md_name +:+ "( " +:+
            String.concat ", " names +:+ " )" +:+ String "010" EmptyString +:+
          "    # dispatch to -> " +:+ fmodule +:+ "." +:+ ffunc +:+ "(...)" +:+
            String "010" EmptyString +:+
          String "010" EmptyString +:+
          String "010" EmptyString +:+
          ".. autofunction:: " +:+ fmodule +:+ "." +:+ ffunc +:+
            String "010" EmptyString).
Proof.
  intros Hmodule Hname Hfuncs Hreadable.
  set (dispatch_name := module_name +:+ "." +:+ md_name).
  destruct (mapM_Ok_exists (multidispatch_component h dispatch_name) items)
    as [blocks Hblocks].
  { eapply Forall_impl; [exact Hreadable |].
    intros [args fname] (Hargs & [fm Hfm] & [fn Hfn]); simpl in *.
    unfold multidispatch_component, qualified_name.
    destruct (mapM_Ok_exists (fun a => from_attr (py_name (obj_at h a))) args)
      as [names Hnames].
    { eapply Forall_impl; [exact Hargs |].
      intros a [n Hn]. rewrite Hn. by eexists. }
    rewrite Hnames, Hfm, Hfn. by eexists. }
  exists blocks. split; [| split].
  - unfold get_multidispatch_string.
    rewrite Hmodule, Hname, Hfuncs. simpl.
    fold dispatch_name. rewrite Hblocks. simpl.
    rewrite SPHINX_MULTIDISPATCH_STRING_text. unfold dispatch_name, Str.join.
    by rewrite !append_assoc.
  - apply mapM_Ok in Hblocks. symmetry. by eapply Forall2_length.
  - intros i args fname Hi. apply mapM_Ok in Hblocks.
    destruct (Forall2_lookup_l _ _ _ _ _ Hblocks Hi) as (block & Hblock & Hrender).
    unfold multidispatch_component, qualified_name in Hrender.
    destruct (mapM _ args) as [names|] eqn:Hnames; simpl in Hrender; [| done].
    destruct (py_module (obj_at h fname)) as [fm|]; simpl in Hrender; [| done].
    destruct (py_name (obj_at h fname)) as [fn|]; simpl in Hrender; [| done].
    injection Hrender as <-.
    exists names, fm, fn. split_and!; try done.
    + apply mapM_Ok in Hnames. eapply Forall2_impl; [exact Hnames |].
      intros a name. simpl. by destruct (py_name (obj_at h a)); intros [= ->].
    + rewrite Hblock. f_equal.
      rewrite SPHINX_MULTIDISPATCH_COMPONENT_STRING_text.
      unfold dispatch_name, Str.join. by rewrite !append_assoc.
Qed.

(** The section of the dispatcher [conditional] of [library_heap], with its
    two registered implementations, as the document of
    [gpflow.conditionals] holds it. *)
Lemma multidispatch_one_block_per_pair_witness :
  get_multidispatch_string library_heap 21 20 "------" =
  Ok (String.concat (String "010" EmptyString)
        [ EmptyString;
          "gpflow.conditionals.conditional";
          "------";
          EmptyString;
          "This function uses multiple dispatch, which will depend on the type of argument passed in:";
          EmptyString;
          EmptyString;
          ".. code-block:: python";
          EmptyString;
          "    gpflow.conditionals.conditional( object, Kernel )";
          "    # dispatch to -> gpflow.conditionals.conditionals._conditional(...)";
          EmptyString;
          EmptyString;
          ".. autofunction:: gpflow.conditionals.conditionals._conditional";
          EmptyString;
          EmptyString;
          ".. code-block:: python";
          EmptyString;
          "    gpflow.conditionals.conditional( Kernel )";
          "    # dispatch to -> gpflow.conditionals.sample_conditionals._sample_conditional(...)";
          EmptyString;
          EmptyString;
          ".. autofunction:: gpflow.conditionals.sample_conditionals._sample_conditional";
          EmptyString;
          EmptyString ]).
Proof.
  destruct (multidispatch_one_block_per_pair library_heap 21 20 "------"
              "gpflow.conditionals" "conditional"
              [([40; 41], 22); ([41], 23)])
    as (blocks & Hrender & Hlength & Hblocks).
  - reflexivity.
  - reflexivity.
  - reflexivity.
  - repeat constructor; by eexists.
  - rewrite Hrender. clear Hrender.
    destruct blocks as [|b0 [|b1 [|b2 blocks]]]; try discriminate Hlength.
    destruct (Hblocks 0%nat [40; 41] 22 eq_refl)
      as (names0 & fm0 & ff0 & Hn0 & Hfm0 & Hff0 & Hb0).
    destruct (Hblocks 1%nat [41] 23 eq_refl)
      as (names1 & fm1 & ff1 & Hn1 & Hfm1 & Hff1 & Hb1).
    apply Forall2_cons_inv_l in Hn0 as (n00 & r0 & Hn00 & Hn0 & ->).
    apply Forall2_cons_inv_l in Hn0 as (n01 & r0' & Hn01 & Hn0 & ->).
    apply Forall2_nil_inv_l in Hn0 as ->.
    apply Forall2_cons_inv_l in Hn1 as (n10 & r1 & Hn10 & Hn1 & ->).
    apply Forall2_nil_inv_l in Hn1 as ->.
    injection Hn00 as <-. injection Hn01 as <-. injection Hn10 as <-.
    injection Hfm0 as <-. injection Hff0 as <-.
    injection Hfm1 as <-. injection Hff1 as <-.
    injection Hb0 as ->. injection Hb1 as ->.
    reflexivity.
Defined.

(** ** The [for] loop *)

Lemma scan_children_scanned h node level children st st' :
  scan_children h node level children st = Ok st' →
  scanned h node level children st st'.
Proof.
  revert st. induction children as [|child rest IH]; intros st; simpl.
  - intros [= <-]. constructor.
  - case_bool_decide as Hin; [intros Hscan; apply scanned_seen; auto |].
    destruct (is_documentable_component h child) as [[]|e] eqn:Hc; simpl;
      [| | done].
    + destruct (get_component_rst_string h node child level) as [rst|e] eqn:Hr;
        simpl; [| done].
      intros Hscan. eapply scanned_component; eauto.
    + destruct (is_documentable_module h child) as [[]|e] eqn:Hm; simpl;
        [| | done].
      * destruct (do_visit_module h child (s_enqueued st)) as [[]|e] eqn:Hv;
          simpl; [| | done].
        -- destruct (get_module_rst_string h child level) as [rst|e] eqn:Hr;
             simpl; [| done].
           intros Hscan. eapply scanned_module; eauto.
        -- intros Hscan. apply scanned_ignored; auto.
      * intros Hscan. apply scanned_ignored; auto.
Qed.

Lemma scanned_enqueued_mono h node level children st st' :
  scanned h node level children st st' → s_enqueued st ⊆ s_enqueued st'.
Proof. induction 1; simpl in *; set_solver. Qed.

Lemma visit_worthy_antitone h module (e1 e2 : gset Z) c :
  e1 ⊆ e2 →
  visit_worthy h module e1 c = Ok false →
  visit_worthy h module e2 c = Ok false.
Proof.
  intros Hsub. unfold visit_worthy.
  destruct (is_documentable_module h c) as [m|e]; simpl; [| done].
  destruct (decide (c ∈ e2)) as [Hin2|Hin2].
  - rewrite (bool_decide_eq_true_2 _ Hin2), andb_false_r. simpl.
    destruct (decide (c ∈ e1)) as [Hin1|Hin1].
    + rewrite (bool_decide_eq_true_2 _ Hin1), andb_false_r. simpl.
      destruct (is_documentable_component h c); simpl; [| done].
      by rewrite !andb_false_r.
    + rewrite (bool_decide_eq_false_2 _ Hin1), andb_true_r. simpl.
      destruct m; [done |].
      destruct (is_documentable_component h c); simpl; [| done].
      by rewrite !andb_false_r.
  - assert (Hin1 : c ∉ e1) by set_solver.
    by rewrite (bool_decide_eq_false_2 _ Hin1), (bool_decide_eq_false_2 _ Hin2).
Qed.

Lemma do_visit_module_antitone h module (e1 e2 : gset Z) :
  e1 ⊆ e2 →
  do_visit_module h module e1 = Ok false →
  do_visit_module h module e2 = Ok false.
Proof.
  intros Hsub. unfold do_visit_module.
  rewrite !do_visit_loop_false_iff. intros Hall.
  eapply Forall_impl; [exact Hall |].
  intros c. by apply visit_worthy_antitone.
Qed.

Lemma settled_mono h (e1 e2 : gset Z) c :
  e1 ⊆ e2 → settled h e1 c → settled h e2 c.
Proof.
  intros Hsub [Hin|[Hc [Hm|Hv]]].
  - left. set_solver.
  - right. split; [done | by left].
  - right. split; [done | right]. by eapply do_visit_module_antitone.
Qed.

Lemma scanned_settled h node level children st st' :
  scanned h node level children st st' →
  Forall (settled h (s_enqueued st')) children.
Proof.
  induction 1 as [st|child rest st st' Hin Hscan IH
                 |child rest st st' rst Hin Hc Hr Hscan IH
                 |child rest st st' rst Hin Hc Hm Hv Hr Hscan IH
                 |child rest st st' Hin Hc Hwhy Hscan IH];
    [constructor | | | |]; (constructor; [| exact IH]);
    apply scanned_enqueued_mono in Hscan; simpl in Hscan.
  - left. set_solver.
  - left. set_solver.
  - left. set_solver.
  - apply (settled_mono h (s_enqueued st)); [done |].
    right. split; [done | exact Hwhy].
Qed.

(** The rendered entries are never empty. *)
Lemma lines_nonempty (s : string) (l : list string) :
  lines (EmptyString :: s :: l) ≠ EmptyString.
Proof. unfold lines, Str.join. simpl. discriminate. Qed.

Lemma get_component_rst_string_nonempty h module component level rst :
  is_documentable_component h component = Ok true →
  get_component_rst_string h module component level = Ok rst →
  rst ≠ EmptyString.
Proof.
  unfold is_documentable_component, get_component_rst_string,
    get_multidispatch_string.
  destruct (py_name (obj_at h module)); simpl; [| done].
  destruct (py_name (obj_at h component)); simpl; [| done].
  destruct (level_underline level); simpl; [| done].
  destruct (inspect_isclass h component).
  { intros _ [= <-]. apply lines_nonempty. }
  destruct (inspect_isfunction h component).
  { intros _ [= <-]. apply lines_nonempty. }
  destruct (String.eqb (py_type_name (obj_at h component)) "Dispatcher");
    [| done].
  intros _.
  destruct (py_disp_name (obj_at h component)); simpl; [| done].
  destruct (py_funcs (obj_at h component)); simpl; [| done].
  destruct (mapM _ _); simpl; [| done].
  intros [= <-]. apply lines_nonempty.
Qed.

Lemma get_module_rst_string_nonempty h module level rst :
  get_module_rst_string h module level = Ok rst → rst ≠ EmptyString.
Proof.
  unfold get_module_rst_string.
  destruct (level_underline level); simpl; [| done].
  destruct (py_name (obj_at h module)); simpl; [| done].
  intros [= <-]. apply lines_nonempty.
Qed.

Lemma not_settled_antitone h (e1 e2 : gset Z) (l : list Z) :
  e1 ⊆ e2 →
  Forall (fun x => ¬ settled h e2 x) l → Forall (fun x => ¬ settled h e1 x) l.
Proof.
  intros Hsub Hall. eapply Forall_impl; [exact Hall |].
  intros x Hx Hs. apply Hx. by eapply settled_mono.
Qed.

Lemma not_settled_not_in h (e : gset Z) (l : list Z) (c : Z) :
  Forall (fun x => ¬ settled h ({[c]} ∪ e) x) l → c ∉ l.
Proof.
  intros Hall Hin. rewrite Forall_forall in Hall.
  apply (Hall c Hin). left. set_solver.
Qed.

Lemma scanned_adds h node level children st st' :
  scanned h node level children st st' →
  ∃ new_c new_m, scan_adds h level st st' new_c new_m.
Proof.
  induction 1 as [st|child rest st st' Hin Hscan IH
                 |child rest st st' rst Hin Hc Hr Hscan IH
                 |child rest st st' rst Hin Hc Hm Hv Hr Hscan IH
                 |child rest st st' Hin Hc Hwhy Hscan IH].
  - exists [], []. unfold scan_adds. simpl.
    rewrite !app_nil_r. repeat split; try constructor. set_solver.
  - exact IH.
  - destruct IH as (new_c & new_m & Hcs & Hms & Hq & He & Hnd & Hns & Hfc & Hfm).
    simpl in *.
    exists ((child, rst) :: new_c), new_m. unfold scan_adds. simpl.
    repeat split.
    + by rewrite Hcs, <- app_assoc.
    + done.
    + done.
    + rewrite He. set_solver.
    + constructor; [by eapply not_settled_not_in | done].
    + constructor.
      * intros [?|[Hfalse _]]; [done | congruence].
      * eapply not_settled_antitone; [| exact Hns]. set_solver.
    + constructor; [| done]. simpl. split; [done |].
      by eapply get_component_rst_string_nonempty.
    + done.
  - destruct IH as (new_c & new_m & Hcs & Hms & Hq & He & Hnd & Hns & Hfc & Hfm).
    simpl in *.
    assert (Hfresh : child ∉ new_c.*1 ++ new_m.*1)
      by (by eapply not_settled_not_in).
    exists new_c, ((child, rst) :: new_m). unfold scan_adds. simpl.
    repeat split.
    + done.
    + by rewrite Hms, <- app_assoc.
    + by rewrite Hq, <- app_assoc.
    + rewrite He. set_solver.
    + apply NoDup_app in Hnd as (Hnc & Hdisj & Hnm).
      apply NoDup_app. repeat split; [done | |].
      * intros x Hx [->|Hx']%elem_of_cons; [| by eapply Hdisj].
        apply Hfresh. set_solver.
      * constructor; [| done]. intros ?. apply Hfresh. set_solver.
    + apply Forall_app in Hns as [Hnc Hnm].
      apply Forall_app. split.
      * eapply not_settled_antitone; [| exact Hnc]. set_solver.
      * constructor.
        -- intros [?|[_ [Hfalse|Hfalse]]]; [done | congruence | congruence].
        -- eapply not_settled_antitone; [| exact Hnm]. set_solver.
    + done.
    + constructor; [| done]. simpl. split; [done |].
      by eapply get_module_rst_string_nonempty.
  - exact IH.
Qed.

(** ** One pass of the [while] loop *)

Lemma join_nonempty (l : list string) :
  l ≠ [] → Forall (fun s => s ≠ EmptyString) l →
  Str.join Str.nl l ≠ EmptyString.
Proof.
  destruct l as [|a l]; [done |]. intros _ Hall.
  apply Forall_cons in Hall as [Ha _].
  destruct a as [|c a]; [done |].
  unfold Str.join. destruct l; simpl; discriminate.
Qed.

Lemma visit_module_spec h RST_PATH DATE_STRING node level queue enq st v :
  visit_module h RST_PATH DATE_STRING node level queue enq = Ok (st, v) →
  scanned h node level (get_public_attributes h node)
    (ScanState queue enq [] []) st ∧
  v_node v = node ∧ v_level v = level ∧
  v_components v = s_components st ∧ v_modules v = s_modules st ∧
  visit_emits h RST_PATH DATE_STRING v.
Proof.
  unfold visit_module.
  destruct (scan_children _ _ _ _ _) as [st0|e] eqn:Hscan; simpl; [| done].
  apply scan_children_scanned in Hscan.
  destruct (scanned_adds _ _ _ _ _ _ Hscan)
    as (new_c & new_m & Hcs & Hms & _ & _ & _ & _ & Hfc & Hfm).
  simpl in Hcs, Hms. rewrite <- Hcs in Hfc. rewrite <- Hms in Hfm.
  assert (Hall : Forall (fun s => s ≠ EmptyString)
                   ((s_components st0).*2 ++ (s_modules st0).*2)).
  { apply Forall_app; split; apply Forall_fmap;
      (eapply Forall_impl; [eassumption | by intros ? [_ ?]]). }
  destruct (String.eqb_spec
              (Str.join Str.nl ((s_components st0).*2 ++ (s_modules st0).*2))
              EmptyString) as [Hempty|Hcontent].
  - intros [= <- <-]. do 5 (split; [done |]).
    unfold visit_emits. simpl.
    destruct (decide ((s_components st0).*2 ++ (s_modules st0).*2 = []))
      as [Hnil|Hcons]; [| by destruct (join_nonempty _ Hcons Hall)].
    apply app_eq_nil in Hnil as [Hc Hm].
    apply fmap_nil_inv in Hc. apply fmap_nil_inv in Hm. done.
  - destruct (py_name (obj_at h node)) as [name|] eqn:Hname; simpl; [| done].
    intros [= <- <-]. do 5 (split; [done |]).
    unfold visit_emits. simpl. split; [| by exists name].
    destruct (s_components st0), (s_modules st0); auto.
Qed.

Lemma documentable_module_in_dom (h : heap) (x : Z) :
  is_documentable_module h x = Ok true → x ∈ dom h.
Proof.
  unfold is_documentable_module, inspect_ismodule, obj_at.
  rewrite elem_of_dom. destruct (h !! x); [by eexists | done].
Qed.

(** ** The [while] loop *)

Section Loop.

Variable h : heap.
Variables RST_PATH DATE_STRING : string.

(** The loop ends: a pass takes an entry off the queue and adds one entry
    for every module whose identity it puts in [enqueued_items], an object
    of the store that was not there before. *)
Lemma scan_adds_measure level st st' new_c new_m :
  scan_adds h level st st' new_c new_m →
  (length (s_queue st') + size (dom h ∖ s_enqueued st') ≤
   length (s_queue st) + size (dom h ∖ s_enqueued st))%nat.
Proof.
  intros (_ & _ & Hq & He & Hnd & Hns & _ & Hfm).
  rewrite Hq, He, length_app, length_fmap.
  set (M := list_to_set (new_m.*1) : gset Z).
  assert (HM : M ⊆ dom h ∖ s_enqueued st).
  { intros x Hx. apply elem_of_list_to_set in Hx.
    apply elem_of_difference. split.
    - apply list_elem_of_fmap in Hx as ([x' r] & -> & Hx).
      rewrite Forall_forall in Hfm. destruct (Hfm _ Hx) as [Hm _].
      by apply documentable_module_in_dom.
    - intros Hin. rewrite Forall_forall in Hns.
      apply (Hns x); [set_solver | by left]. }
  assert (HsM : size M = length new_m).
  { unfold M. rewrite size_list_to_set, length_fmap; [done |].
    by apply NoDup_app in Hnd as (_ & _ & ?). }
  assert (Hle : (size (dom h ∖ (list_to_set (new_c.*1 ++ new_m.*1)
                                 ∪ s_enqueued st))
                 ≤ size ((dom h ∖ s_enqueued st) ∖ M))%nat).
  { apply subseteq_size. unfold M. set_solver. }
  rewrite (size_difference (dom h ∖ s_enqueued st) M HM) in Hle.
  apply subseteq_size in HM. lia.
Qed.

Lemma bfs_total fuel queue enq trace :
  (length queue + size (dom h ∖ enq) ≤ fuel)%nat →
  is_Some (bfs h RST_PATH DATE_STRING fuel queue enq trace).
Proof.
  revert queue enq trace.
  induction fuel as [|fuel IH]; intros [|[node level] queue] enq trace Hfuel;
    simpl in *; try (by eexists); [lia |].
  destruct (negb _); [apply IH; lia |].
  destruct (is_documentable_module h node) as [[]|e]; [| apply IH; lia | by eexists].
  destruct (visit_module _ _ _ _ _ _ _) as [[st v]|e] eqn:Hvisit; [| by eexists].
  apply IH.
  apply visit_module_spec in Hvisit as (Hscan & _).
  destruct (scanned_adds _ _ _ _ _ _ Hscan) as (new_c & new_m & Hadds).
  apply scan_adds_measure in Hadds. simpl in Hadds. lia.
Qed.

Lemma traverse_module_bfs_total queue enq :
  is_Some (traverse_module_bfs h RST_PATH DATE_STRING queue enq).
Proof.
  apply bfs_total.
  assert ((size (dom h ∖ enq) ≤ size h)%nat); [| lia].
  rewrite <- (size_dom (D := gset Z)). apply subseteq_size. set_solver.
Qed.

(** Induction over the passes of the loop: a property of the queue,
    [enqueued_items] and the trace that survives a skipped entry and a pass
    over a documentable module holds when the run ends. *)
Lemma bfs_invariant (I : list (Z * Z) → gset Z → list visit → Prop) :
  (∀ entry queue enq trace, I (entry :: queue) enq trace → I queue enq trace) →
  (∀ node level queue enq trace st v,
     I ((node, level) :: queue) enq trace →
     is_documentable_module h node = Ok true →
     visit_module h RST_PATH DATE_STRING node level queue enq = Ok (st, v) →
     I (s_queue st) (s_enqueued st) (trace ++ [v])) →
  ∀ fuel queue enq trace r,
    I queue enq trace →
    bfs h RST_PATH DATE_STRING fuel queue enq trace = Some r →
    ∃ queue' enq', I queue' enq' (run_trace r).
Proof.
  intros Hskip Hvisit fuel.
  induction fuel as [|fuel IH]; intros [|[node level] queue] enq trace r HI;
    simpl; try done; try (intros [= <-]; by eauto).
  destruct (negb _); [apply IH; by eapply Hskip |].
  destruct (is_documentable_module h node) as [[]|e] eqn:Hm;
    [| apply IH; by eapply Hskip | intros [= <-]; by eauto].
  destruct (visit_module _ _ _ _ _ _ _) as [[st v]|e] eqn:Hv;
    [| intros [= <-]; by eauto].
  apply IH. by eapply Hvisit.
Qed.

End Loop.

(** ** The runs on the example libraries *)

(** The run on [library_heap]: [Matern52] is documented in the document of
    [gpflow.kernels], and [gpflow.kernels.stationaries], left with nothing
    new, is neither linked nor visited; [gpflow.versions] is excluded. *)
Example library_run :
  run_summary <$> traverse_module_bfs library_heap "source" "03/11/26"
                    [(1, 0)] {[1]} =
  Some [ (1, 0, [], [20; 10], Some "source/gpflow/index.rst");
         (20, 1, [24; 21], [], Some "source/gpflow/conditionals/index.rst");
         (10, 1, [11], [], Some "source/gpflow/kernels/index.rst") ].
Proof. vm_compute. reflexivity. Qed.

Example library_kernels_document :
  (fun r => files_of (run_trace r) !! "source/gpflow/kernels/index.rst") <$>
    traverse_module_bfs library_heap "source" "03/11/26" [(1, 0)] {[1]} =
  Some (Some (lines
    [ "==========";
      "gpflow.kernels";
      "========";
      EmptyString;
      ".. THIS IS AN AUTOGENERATED RST FILE";
      ".. GENERATED BY `generate_rst.py`";
      ".. DATE: 03/11/26";
      EmptyString;
      EmptyString;
      EmptyString;
      "gpflow.kernels.Matern52";
      "------";
      EmptyString;
      ".. autoclass:: gpflow.kernels.Matern52";
      "   :show-inheritance:";
      "   :members:";
      EmptyString;
      EmptyString ])).
Proof. vm_compute. reflexivity. Qed.

(** The run on [sibling_alias_heap]: [gpflow.b] is not visited. *)
Example sibling_alias_run :
  run_summary <$> traverse_module_bfs sibling_alias_heap "source" "03/11/26"
                    [(1, 0)] {[1]} =
  Some [ (1, 0, [], [2], Some "source/gpflow/index.rst");
         (2, 1, [], [4], Some "source/gpflow/a/index.rst");
         (4, 2, [5], [], Some "source/gpflow/a/sub/index.rst") ].
Proof. vm_compute. reflexivity. Qed.

(** ** No object is documented twice *)


Section Dedup.

Variable h : heap.
Variables RST_PATH DATE_STRING : string.

Lemma visit_module_ids node level queue enq st v :
  visit_module h RST_PATH DATE_STRING node level queue enq = Ok (st, v) →
  ∃ new_c new_m,
    scan_adds h level (ScanState queue enq [] []) st new_c new_m ∧
    v_components v = new_c ∧ v_modules v = new_m.
Proof.
  intros (Hscan & _ & _ & Hvc & Hvm & _)%visit_module_spec.
  destruct (scanned_adds _ _ _ _ _ _ Hscan) as (new_c & new_m & Hadds).
  exists new_c, new_m. split; [done |].
  destruct Hadds as (Hcs & Hms & _). simpl in *. by rewrite Hvc, Hvm.
Qed.



End Dedup.

(** The run on [covariances_heap]: the dispatcher [Kuf] is rendered in
    the document of [gpflow.covariances], the functions registered in it
    in the document of [gpflow.covariances.kufs]. *)
Example covariances_run :
  run_summary <$> traverse_module_bfs covariances_heap "source" "03/11/26"
                    [(1, 0)] {[1]} =
  Some [ (1, 0, [], [2], Some "source/gpflow/index.rst");
         (2, 1, [3], [4], Some "source/gpflow/covariances/index.rst");
         (4, 2, [5; 6], [],
          Some "source/gpflow/covariances/kufs/index.rst") ].
Proof. vm_compute. reflexivity. Qed.



(** ** Empty documents are not written *)

(** C5: for every module the loop processes, a file is written exactly
    when the pass collected a component entry or a module link; with
    nothing collected the joined content is empty and [write_to_rst_file]
    is not called. The file written is the one [write_to_rst_file] builds
    from the module's name and the collected entries. *)
Theorem file_written_iff_content (h : heap) (RST_PATH DATE_STRING : string)
    (queue : list (Z * Z)) (enq : gset Z) :
  ∃ r, traverse_module_bfs h RST_PATH DATE_STRING queue enq = Some r ∧
    Forall (fun v =>
              (is_Some (v_file v) ↔ v_components v ≠ [] ∨ v_modules v ≠ []) ∧
              visit_emits h RST_PATH DATE_STRING v)
           (run_trace r).
Proof.
  destruct (traverse_module_bfs_total h RST_PATH DATE_STRING queue enq)
    as [r Hrun].
  exists r. split; [done |].
  destruct (bfs_invariant h RST_PATH DATE_STRING
              (fun _ _ trace =>
                 Forall (visit_emits h RST_PATH DATE_STRING) trace))
    with (fuel := (length queue + size h)%nat) (queue := queue) (enq := enq)
         (trace := @nil visit) (r := r)
    as (_ & _ & Hall); try done.
  - intros node level q e t st v Ht _ Hv.
    apply Forall_app. split; [done |]. constructor; [| constructor].
    by apply visit_module_spec in Hv as (_ & _ & _ & _ & _ & ?).
  - eapply Forall_impl; [exact Hall |].
    intros v Hv. split; [| done].
    unfold visit_emits in Hv. destruct (v_file v) as [file|].
    + destruct Hv as [Hsome _]. split; [done | by eexists].
    + destruct Hv as [-> ->]. split; [by intros [? ?] | by intros [?|?]].
Qed.

(** ** Entries without a name *)

Section Frame.

Variable h : heap.
Variables RST_PATH DATE_STRING : string.

(** The [for] loop only appends to the queue: what it does is the same
    whatever entries the queue holds in front. *)
Lemma scan_children_prepend node level children (q : list (Z * Z)) st :
  scan_children h node level children (with_queue (app q) st) =
  st' ← scan_children h node level children st; Ok (with_queue (app q) st').
Proof.
  revert st. induction children as [|child rest IH]; intros st; simpl; [done |].
  destruct (bool_decide (child ∈ s_enqueued st)); [apply IH |].
  destruct (is_documentable_component h child) as [[]|e]; simpl; [| | done].
  - destruct (get_component_rst_string h node child level); simpl; [| done].
    apply (IH (ScanState _ _ _ _)).
  - destruct (is_documentable_module h child) as [[]|e]; simpl;
      [| apply IH | done].
    destruct (do_visit_module h child (s_enqueued st)) as [[]|e]; simpl;
      [| apply IH | done].
    destruct (get_module_rst_string h child level); simpl; [| done].
    rewrite <- IH. unfold with_queue. simpl. by rewrite app_assoc.
Qed.

Lemma scan_children_queue node level children (q' : list (Z * Z)) enq :
  scan_children h node level children (ScanState q' enq [] []) =
  st ← scan_children h node level children (ScanState [] enq [] []);
  Ok (with_queue (app q') st).
Proof.
  rewrite <- scan_children_prepend. unfold with_queue. simpl.
  by rewrite app_nil_r.
Qed.

(** A pass leaves the entries of the queue in place and adds its own
    behind them. *)
Lemma visit_module_queue node level enq :
  (∃ e, ∀ q, visit_module h RST_PATH DATE_STRING node level q enq = Raise e)
  ∨ (∃ added enq' cs ms v, ∀ q,
       visit_module h RST_PATH DATE_STRING node level q enq =
       Ok (ScanState (q ++ added) enq' cs ms, v)).
Proof.
  unfold visit_module.
  destruct (scan_children h node level (get_public_attributes h node)
              (ScanState [] enq [] [])) as [st0|e] eqn:Hscan.
  - destruct (String.eqb (Str.join Str.nl
                ((s_components st0).*2 ++ (s_modules st0).*2)) EmptyString)
      eqn:Hempty.
    + right. eexists (s_queue st0), _, _, _, _. intros q'.
      rewrite scan_children_queue, Hscan. simpl. rewrite Hempty. reflexivity.
    + destruct (py_name (obj_at h node)) as [name|] eqn:Hname.
      * right. eexists (s_queue st0), _, _, _, _. intros q'.
        rewrite scan_children_queue, Hscan. simpl.
        rewrite Hempty, ?Hname. reflexivity.
      * left. exists AttributeError. intros q'.
        rewrite scan_children_queue, Hscan. simpl.
        rewrite Hempty, ?Hname. reflexivity.
  - left. exists e. intros q'. by rewrite scan_children_queue, Hscan.
Qed.

Lemma bfs_skip_nameless fuel (q1 : list (Z * Z)) node level q2 enq trace r :
  py_name (obj_at h node) = None →
  bfs h RST_PATH DATE_STRING fuel (q1 ++ q2) enq trace = Some r →
  bfs h RST_PATH DATE_STRING (S fuel) (q1 ++ (node, level) :: q2) enq trace
  = Some r.
Proof.
  intros Hname. revert q1 q2 enq trace.
  induction fuel as [|fuel IH]; intros [|[n l] q1] q2 enq trace.
  - simpl. rewrite Hname. simpl. done.
  - done.
  - intros Hrun. cbn [app bfs]. rewrite Hname. simpl. exact Hrun.
  - cbn [app]. intros Hrun. cbn [bfs] in Hrun. cbn [bfs].
    destruct (negb (bool_decide (is_Some (py_name (obj_at h n)))));
      [by apply IH |].
    destruct (is_documentable_module h n) as [[]|e]; [| by apply IH | done].
    destruct (visit_module_queue n l enq)
      as [[e He]|(added & enq' & cs & ms & v & Hv)].
    + by rewrite He in *.
    + rewrite Hv in *. simpl in *.
      rewrite <- app_assoc in Hrun. rewrite <- app_assoc. simpl.
      by apply IH.
Qed.

End Frame.

(** C7: a queue entry whose node has no [__name__] is skipped as if it had
    never been in the queue: the run with the entry equals the run without
    it, in the passes it makes, the files it writes, the exception it ends
    with, if any, and the final [enqueued_items]. *)
Theorem nameless_entry_skipped (h : heap) (RST_PATH DATE_STRING : string)
    (q1 : list (Z * Z)) (node level : Z) (q2 : list (Z * Z)) (enq : gset Z) :
  py_name (obj_at h node) = None →
  traverse_module_bfs h RST_PATH DATE_STRING (q1 ++ (node, level) :: q2) enq =
  traverse_module_bfs h RST_PATH DATE_STRING (q1 ++ q2) enq.
Proof.
  intros Hname.
  destruct (traverse_module_bfs_total h RST_PATH DATE_STRING (q1 ++ q2) enq)
    as [r Hrun].
  rewrite Hrun. unfold traverse_module_bfs in *.
  replace (length (q1 ++ (node, level) :: q2) + size h)%nat
    with (S (length (q1 ++ q2) + size h))
    by (rewrite !length_app; simpl; lia).
  by apply bfs_skip_nameless.
Qed.

Lemma nameless_entry_skipped_witness :
  py_name (obj_at library_heap 90) = None ∧
  traverse_module_bfs library_heap "source" "03/11/26"
    ([] ++ (90, 5) :: [(1, 0)]) {[1]} =
  traverse_module_bfs library_heap "source" "03/11/26" ([] ++ [(1, 0)]) {[1]}.
Proof.
  split; [reflexivity |].
  apply (nameless_entry_skipped library_heap "source" "03/11/26"
           [] 90 5 [(1, 0)] {[1]}).
  reflexivity.
Defined.

(** ** The date is the only trace of the time of the run *)

Lemma str_join_app (sep : string) (l1 l2 : list string) :
  l1 ≠ [] → l2 ≠ [] →
  Str.join sep (l1 ++ l2) = Str.join sep l1 +:+ sep +:+ Str.join sep l2.
Proof.
  unfold Str.join. intros Hl1 Hl2.
  induction l1 as [|a [|b l1] IH]; [done | |].
  - destruct l2; [done | reflexivity].
  - change (String.concat sep ((a :: b :: l1) ++ l2))
      with (a +:+ sep +:+ String.concat sep ((b :: l1) ++ l2)).
    rewrite IH by done.
    change (String.concat sep (a :: b :: l1))
      with (a +:+ sep +:+ String.concat sep (b :: l1)).
    by rewrite !append_assoc.
Qed.

Lemma SPHINX_FILE_STRING_date (title date content : string) :
  SPHINX_FILE_STRING title date content =
  (lines [ "=========="; title; "========"; EmptyString;
           ".. THIS IS AN AUTOGENERATED RST FILE";
           ".. GENERATED BY `generate_rst.py`" ] +:+ Str.nl)
  +:+ ".. DATE: " +:+ date +:+ Str.nl
  +:+ lines [ EmptyString; EmptyString; content; EmptyString ].
Proof.
  unfold SPHINX_FILE_STRING, lines.
  change [ "=========="; title; "========"; EmptyString;
           ".. THIS IS AN AUTOGENERATED RST FILE";
           ".. GENERATED BY `generate_rst.py`";
           ".. DATE: " +:+ date;
           EmptyString; EmptyString; content; EmptyString ]
    with ([ "=========="; title; "========"; EmptyString;
            ".. THIS IS AN AUTOGENERATED RST FILE";
            ".. GENERATED BY `generate_rst.py`" ]
          ++ [ ".. DATE: " +:+ date ]
          ++ [ EmptyString; EmptyString; content; EmptyString ]).
  rewrite str_join_app by done. rewrite str_join_app by done.
  change (Str.join Str.nl [".. DATE: " +:+ date]) with (".. DATE: " +:+ date).
  by rewrite !append_assoc.
Qed.

Section Dates.

Variable h : heap.
Variable RST_PATH : string.
Variables d1 d2 : string.

Lemma write_to_rst_file_dates name content :
  (write_to_rst_file RST_PATH d1 name content).1 =
  (write_to_rst_file RST_PATH d2 name content).1 ∧
  date_line_differs d1 d2 (write_to_rst_file RST_PATH d1 name content).2
                          (write_to_rst_file RST_PATH d2 name content).2.
Proof.
  split; [reflexivity |]. unfold write_to_rst_file. simpl.
  eexists _, _. split; apply SPHINX_FILE_STRING_date.
Qed.

Lemma visit_module_dates node level queue enq :
  match visit_module h RST_PATH d1 node level queue enq,
        visit_module h RST_PATH d2 node level queue enq with
  | Ok (st1, v1), Ok (st2, v2) => st1 = st2 ∧ same_visit_but_date d1 d2 v1 v2
  | Raise e1, Raise e2 => e1 = e2
  | _, _ => False
  end.
Proof.
  unfold visit_module.
  destruct (scan_children _ _ _ _ _) as [st|e]; simpl; [| done].
  destruct (String.eqb _ _).
  - repeat split; try done. simpl. constructor.
  - destruct (py_name (obj_at h node)) as [name|]; simpl; [| done].
    repeat split; try done; simpl; constructor;
      apply write_to_rst_file_dates.
Qed.

Lemma bfs_dates fuel queue enq t1 t2 :
  Forall2 (same_visit_but_date d1 d2) t1 t2 →
  option_Forall2 (same_run_but_date d1 d2)
    (bfs h RST_PATH d1 fuel queue enq t1)
    (bfs h RST_PATH d2 fuel queue enq t2).
Proof.
  revert queue enq t1 t2.
  induction fuel as [|fuel IH]; intros [|[node level] queue] enq t1 t2 Ht;
    simpl; try (by repeat constructor).
  destruct (negb _); [by apply IH |].
  destruct (is_documentable_module h node) as [[]|e];
    [| by apply IH | by repeat constructor].
  pose proof (visit_module_dates node level queue enq) as Hv.
  destruct (visit_module h RST_PATH d1 node level queue enq) as [[st1 v1]|e1],
           (visit_module h RST_PATH d2 node level queue enq) as [[st2 v2]|e2];
    try done.
  - destruct Hv as [<- Hv]. apply IH. apply Forall2_app; [done |].
    by constructor.
  - subst. by repeat constructor.
Qed.

Lemma files_of_dates (t1 t2 : list visit) (fs1 fs2 : gmap string string) :
  (∀ p, option_Forall2 (date_line_differs d1 d2) (fs1 !! p) (fs2 !! p)) →
  Forall2 (same_visit_but_date d1 d2) t1 t2 →
  ∀ p, option_Forall2 (date_line_differs d1 d2)
         (foldl write_file fs1 t1 !! p) (foldl write_file fs2 t2 !! p).
Proof.
  intros Hfs Ht. revert fs1 fs2 Hfs.
  induction Ht as [|v1 v2 t1 t2 Hv Ht IH]; intros fs1 fs2 Hfs; [done |].
  simpl. apply IH. intros p.
  destruct Hv as (_ & _ & _ & _ & Hfile). unfold write_file.
  destruct Hfile as [[p1 x1] [p2 x2] [Hp Hx]|]; [| done].
  simpl in Hp, Hx. subst p2.
  destruct (decide (p1 = p)) as [->|Hne].
  - rewrite !lookup_insert_eq. by constructor.
  - rewrite !lookup_insert_ne by done. apply Hfs.
Qed.

End Dates.

(** C8: two runs on the same object graph that differ in the date of the
    run make the same passes and end the same way; they write the same
    files, and the texts of a file are the same but for the date after
    [.. DATE: ]. *)
Theorem output_differs_only_in_date (h : heap) (RST_PATH d1 d2 : string)
    (queue : list (Z * Z)) (enq : gset Z) :
  ∃ r1 r2,
    traverse_module_bfs h RST_PATH d1 queue enq = Some r1 ∧
    traverse_module_bfs h RST_PATH d2 queue enq = Some r2 ∧
    same_run_but_date d1 d2 r1 r2 ∧
    ∀ path, option_Forall2 (date_line_differs d1 d2)
              (files_of (run_trace r1) !! path)
              (files_of (run_trace r2) !! path).
Proof.
  destruct (traverse_module_bfs_total h RST_PATH d1 queue enq) as [r1 Hr1].
  destruct (traverse_module_bfs_total h RST_PATH d2 queue enq) as [r2 Hr2].
  exists r1, r2. split; [done |]. split; [done |].
  pose proof (bfs_dates h RST_PATH d1 d2 (length queue + size h) queue enq
                [] [] ltac:(constructor)) as Hrel.
  unfold traverse_module_bfs in Hr1, Hr2. rewrite Hr1, Hr2 in Hrel.
  inversion Hrel as [? ? Hruns|]; subst. split; [done |].
  assert (Ht : Forall2 (same_visit_but_date d1 d2)
                 (run_trace r1) (run_trace r2)).
  { destruct r1, r2; simpl in *; try done; by destruct Hruns. }
  intros path. unfold files_of.
  apply (files_of_dates d1 d2 _ _ ∅ ∅); [| done].
  intros p. rewrite !lookup_empty. constructor.
Qed.

(** ** Breadth-first order *)

Lemma ordered_pairs_snoc {A} (R : A → A → Prop) (l : list A) (b : A) :
  ordered_pairs R l → Forall (fun a => R a b) l → ordered_pairs R (l ++ [b]).
Proof.
  intros Hl Hb i j x y Hij Hi Hj.
  assert (Hjlen : (j < length (l ++ [b]))%nat) by (by eapply lookup_lt_Some).
  rewrite length_app in Hjlen. simpl in Hjlen.
  rewrite lookup_app_l in Hi by lia.
  destruct (decide (j < length l)%nat) as [Hjl|Hjl].
  - rewrite lookup_app_l in Hj by done. by apply (Hl i j x y).
  - rewrite lookup_app_r in Hj by lia.
    replace (j - length l)%nat with 0%nat in Hj by lia.
    injection Hj as <-. rewrite Forall_forall in Hb. apply Hb.
    by eapply list_elem_of_lookup_2.
Qed.

Lemma chain_snoc (h : heap) (a b c : Z) (n : nat) :
  chain h a n b → c ∈ get_public_attributes h b → chain h a (S n) c.
Proof.
  revert a. induction n as [|n IH]; intros a; simpl.
  - intros -> Hc. by exists c.
  - intros (m & Hm & Hchain) Hc. exists m. split; [done |]. by apply IH.
Qed.

Lemma scanned_queue h node level children st st' :
  scanned h node level children st st' →
  ∃ added, s_queue st' = s_queue st ++ added ∧
    Forall (fun e => e.1 ∈ children ∧ e.2 = level + 1) added.
Proof.
  induction 1 as [st|child rest st st' Hin Hscan IH
                 |child rest st st' rst Hin Hc Hr Hscan IH
                 |child rest st st' rst Hin Hc Hm Hv Hr Hscan IH
                 |child rest st st' Hin Hc Hwhy Hscan IH].
  - exists []. by rewrite app_nil_r.
  - destruct IH as (added & -> & Hadded). exists added. split; [done |].
    eapply Forall_impl; [exact Hadded |]. intros e [? ?]. set_solver.
  - destruct IH as (added & -> & Hadded). exists added. split; [done |].
    eapply Forall_impl; [exact Hadded |]. intros e [? ?]. set_solver.
  - destruct IH as (added & -> & Hadded). simpl.
    exists ((child, level + 1) :: added). split; [by rewrite <- app_assoc |].
    constructor; [simpl; set_solver |].
    eapply Forall_impl; [exact Hadded |]. intros e [? ?]. set_solver.
  - destruct IH as (added & -> & Hadded). exists added. split; [done |].
    eapply Forall_impl; [exact Hadded |]. intros e [? ?]. set_solver.
Qed.

Section Order.

Variable h : heap.
Variables RST_PATH DATE_STRING : string.
Variable root : Z.

Lemma bfs_order_skip entry queue enq trace :
  bfs_order h root (entry :: queue) enq trace →
  bfs_order h root queue enq trace.
Proof.
  intros ((cur & (q0 & q1 & Heq & H0 & H1) & Hcur) & Hord & Hset & Hq & Ht).
  unfold bfs_order. split_and!; [| done | done | by inversion Hq | done].
  exists cur. split; [| done].
  destruct q0 as [|e0 q0]; simpl in Heq.
  - subst q1. exists [], queue. by inversion H1.
  - injection Heq as -> ->. exists q0, q1. by inversion H0.
Qed.

Lemma bfs_order_visit node level queue enq trace st v :
  bfs_order h root ((node, level) :: queue) enq trace →
  visit_module h RST_PATH DATE_STRING node level queue enq = Ok (st, v) →
  bfs_order h root (s_queue st) (s_enqueued st) (trace ++ [v]).
Proof.
  intros ((cur & (q0 & q1 & Heq & H0 & H1) & Hcur) & Hord & Hset & Hq & Ht)
         Hvisit.
  destruct (visit_module_ids _ _ _ _ _ _ _ _ _ Hvisit)
    as (new_c & new_m & Hadds & Hvc & Hvm).
  apply visit_module_spec in Hvisit as (Hscan & Hnode & Hlevel & _).
  pose proof (scanned_settled _ _ _ _ _ _ Hscan) as Hsettled.
  pose proof (scanned_enqueued_mono _ _ _ _ _ _ Hscan) as Hmono.
  destruct (scanned_queue _ _ _ _ _ _ Hscan) as (added & Hqueue & Hadded).
  destruct Hadds as (_ & _ & _ & _ & _ & Hns & _).
  simpl in Hqueue, Hmono, Hns.
  apply Forall_cons in Hq as [Hhead Hq]. simpl in Hhead.
  assert (Hlevels : cur ≤ level ≤ cur + 1 ∧
            two_levels level (queue ++ added)).
  { destruct q0 as [|e0 q0]; simpl in Heq.
    - subst q1. apply Forall_cons in H1 as [Hl H1]. simpl in Hl.
      split; [lia |]. exists queue, added. repeat split; [by subst |].
      eapply Forall_impl; [exact Hadded |]. intros e [_ ->]. lia.
    - injection Heq as <- ->. apply Forall_cons in H0 as [Hl H0]. simpl in Hl.
      split; [lia |]. exists q0, (q1 ++ added).
      repeat split; [by rewrite app_assoc | by subst |].
      apply Forall_app. split; [by subst |].
      eapply Forall_impl; [exact Hadded |]. by intros e [_ ->]. }
  destruct Hlevels as [Hcurlevel Htwo].
  rewrite Hqueue. unfold bfs_order. split_and!.
  - exists level. split; [done |].
    apply Forall_app. split.
    + eapply Forall_impl; [exact Hcur |]. intros v' Hv'. simpl in Hv'. lia.
    + constructor; [lia | constructor].
  - apply ordered_pairs_snoc; [done |].
    rewrite Forall_forall. intros v' Hv'. split.
    + rewrite Forall_forall in Hcur. specialize (Hcur v' Hv'). simpl in Hcur.
      lia.
    + intros x Hx Hexposed. unfold visit_ids in Hx. rewrite Hvc, Hvm in Hx.
      rewrite Forall_forall in Hns. apply (Hns x Hx).
      rewrite Forall_forall in Hset. specialize (Hset v' Hv').
      rewrite Forall_forall in Hset. by apply Hset.
  - apply Forall_app. split.
    + eapply Forall_impl; [exact Hset |]. intros v' Hv'. simpl in Hv'.
      eapply Forall_impl; [exact Hv' |]. intros c. by apply settled_mono.
    + constructor; [| constructor]. by rewrite Hnode.
  - apply Forall_app. split; [done |].
    eapply Forall_impl; [exact Hadded |]. intros [c l] [Hc ->]. simpl in *.
    destruct Hhead as [Hpos Hchain]. split; [lia |].
    replace (Z.to_nat (level + 1)) with (S (Z.to_nat level)) by lia.
    by eapply chain_snoc.
  - apply Forall_app. split; [done |].
    constructor; [| constructor]. by rewrite Hnode, Hlevel.
Qed.

Lemma bfs_order_run r :
  traverse_module_bfs h RST_PATH DATE_STRING [(root, 0)] {[root]} = Some r →
  ∃ queue enq, bfs_order h root queue enq (run_trace r).
Proof.
  apply (bfs_invariant h RST_PATH DATE_STRING (bfs_order h root)).
  - apply bfs_order_skip.
  - intros node level queue enq trace st v Hinv _ Hvisit.
    by eapply bfs_order_visit.
  - unfold bfs_order. split_and!.
    + exists 0. split; [| constructor].
      exists [(root, 0)], []. split_and!; by repeat constructor.
    + intros i j a b _ Hi. by rewrite lookup_nil in Hi.
    + constructor.
    + constructor; [| constructor]. by split.
    + constructor.
Qed.

End Order.


(** ** The identities themselves do not matter *)

Section Rename.

Variable f : Z → Z.
Context `{!Inj (=) (=) f}.
Variable h : heap.

Lemma obj_at_rename (i : Z) :
  obj_at (rename_heap f h) (f i) = rename_obj f (obj_at h i).
Proof.
  unfold obj_at, rename_heap.
  rewrite lookup_kmap by done. rewrite lookup_fmap.
  by destruct (h !! i).
Qed.

Lemma is_documentable_module_rename (m : Z) :
  is_documentable_module (rename_heap f h) (f m) = is_documentable_module h m.
Proof.
  unfold is_documentable_module, inspect_ismodule.
  by rewrite obj_at_rename.
Qed.

Lemma is_documentable_component_rename (m : Z) :
  is_documentable_component (rename_heap f h) (f m) =
  is_documentable_component h m.
Proof.
  unfold is_documentable_component, inspect_isfunction, inspect_isclass.
  by rewrite obj_at_rename.
Qed.

Lemma public_rename (l : list (string * Z)) :
  (List.filter (fun a => negb (Str.startswith "_" a.1))
     (prod_map id f <$> l)).*2 =
  f <$> (List.filter (fun a => negb (Str.startswith "_" a.1)) l).*2.
Proof.
  induction l as [|[a i] l IH]; [done |].
  rewrite fmap_cons. cbn [List.filter prod_map fst id].
  destruct (negb (Str.startswith "_" a)); [| exact IH].
  rewrite !fmap_cons. by rewrite IH.
Qed.

Lemma get_public_attributes_rename (node : Z) :
  get_public_attributes (rename_heap f h) (f node) =
  f <$> get_public_attributes h node.
Proof.
  unfold get_public_attributes. rewrite obj_at_rename. apply public_rename.
Qed.

Lemma elem_of_rename (enq : gset Z) (c : Z) :
  bool_decide (f c ∈ (set_map f enq : gset Z)) = bool_decide (c ∈ enq).
Proof.
  apply bool_decide_ext. rewrite elem_of_map. split.
  - intros (c' & Heq & Hin). by apply (inj f) in Heq as ->.
  - intros Hin. by exists c.
Qed.

Lemma visit_worthy_rename (module : Z) (enq : gset Z) (child : Z) :
  visit_worthy (rename_heap f h) (f module) (set_map f enq) (f child) =
  visit_worthy h module enq child.
Proof.
  unfold visit_worthy.
  rewrite is_documentable_module_rename, is_documentable_component_rename,
    elem_of_rename, !obj_at_rename.
  reflexivity.
Qed.

Lemma do_visit_module_rename (module : Z) (enq : gset Z) :
  do_visit_module (rename_heap f h) (f module) (set_map f enq) =
  do_visit_module h module enq.
Proof.
  unfold do_visit_module. rewrite get_public_attributes_rename.
  induction (get_public_attributes h module) as [|child rest IH]; [done |].
  simpl. rewrite visit_worthy_rename.
  destruct (visit_worthy h module enq child) as [[]|]; simpl; [done | | done].
  exact IH.
Qed.

Lemma mapM_fmap_ext {A B C} (g : B → result C) (g' : A → result C)
    (k : A → B) (l : list A) :
  (∀ a, g (k a) = g' a) → mapM g (k <$> l) = mapM g' l.
Proof.
  intros Hg. induction l as [|a l IH]; [done |].
  change (mapM g (k <$> a :: l))
    with (y ← g (k a); r ← mapM g (k <$> l); mret (y :: r)).
  change (mapM g' (a :: l)) with (y ← g' a; r ← mapM g' l; mret (y :: r)).
  by rewrite Hg, IH.
Qed.

Lemma mapM_names_rename (args : list Z) :
  mapM (fun a => from_attr (py_name (obj_at (rename_heap f h) a)))
       (f <$> args) =
  mapM (fun a => from_attr (py_name (obj_at h a))) args.
Proof. apply mapM_fmap_ext. intros a. by rewrite obj_at_rename. Qed.

Lemma multidispatch_component_rename (dispatch_name : string)
    (item : list Z * Z) :
  multidispatch_component (rename_heap f h) dispatch_name
    (prod_map (fmap (M := list) f) f item) =
  multidispatch_component h dispatch_name item.
Proof.
  destruct item as [args fname].
  unfold multidispatch_component, prod_map. cbn [fst snd].
  rewrite mapM_names_rename. unfold qualified_name.
  rewrite obj_at_rename. reflexivity.
Qed.

Lemma get_multidispatch_string_rename (md module : Z) (level : string) :
  get_multidispatch_string (rename_heap f h) (f md) (f module) level =
  get_multidispatch_string h md module level.
Proof.
  unfold get_multidispatch_string. rewrite !obj_at_rename. simpl.
  destruct (py_name (obj_at h module)); simpl; [| done].
  destruct (py_disp_name (obj_at h md)); simpl; [| done].
  destruct (py_funcs (obj_at h md)) as [items|]; simpl; [| done].
  assert (Hitems : ∀ dn,
            mapM (multidispatch_component (rename_heap f h) dn)
                 (prod_map (fmap (M := list) f) f <$> items) =
            mapM (multidispatch_component h dn) items).
  { intros dn. apply mapM_fmap_ext. intros item.
    apply multidispatch_component_rename. }
  by rewrite Hitems.
Qed.

Lemma get_component_rst_string_rename (module component level : Z) :
  get_component_rst_string (rename_heap f h) (f module) (f component) level =
  get_component_rst_string h module component level.
Proof.
  unfold get_component_rst_string, inspect_isclass, inspect_isfunction.
  rewrite !obj_at_rename. simpl.
  destruct (py_name (obj_at h module)); simpl; [| done].
  destruct (py_name (obj_at h component)); simpl; [| done].
  destruct (level_underline level); simpl; [| done].
  by rewrite get_multidispatch_string_rename.
Qed.

Lemma get_module_rst_string_rename (module level : Z) :
  get_module_rst_string (rename_heap f h) (f module) level =
  get_module_rst_string h module level.
Proof. unfold get_module_rst_string. by rewrite obj_at_rename. Qed.

Lemma scan_children_rename (node level : Z) (children : list Z) st :
  scan_children (rename_heap f h) (f node) level (f <$> children)
    (rename_state f st) =
  st' ← scan_children h node level children st; Ok (rename_state f st').
Proof.
  revert st. induction children as [|child rest IH]; intros st; [done |].
  simpl. rewrite elem_of_rename.
  destruct (bool_decide (child ∈ s_enqueued st)); [apply IH |].
  rewrite is_documentable_component_rename.
  destruct (is_documentable_component h child) as [[]|]; simpl; [| | done].
  - rewrite get_component_rst_string_rename.
    destruct (get_component_rst_string h node child level); simpl; [| done].
    rewrite <- IH. f_equal. unfold rename_state. simpl.
    by rewrite fmap_app, set_map_union_L, set_map_singleton_L.
  - rewrite is_documentable_module_rename.
    destruct (is_documentable_module h child) as [[]|]; simpl;
      [| apply IH | done].
    rewrite do_visit_module_rename.
    destruct (do_visit_module h child (s_enqueued st)) as [[]|]; simpl;
      [| apply IH | done].
    rewrite get_module_rst_string_rename.
    destruct (get_module_rst_string h child level); simpl; [| done].
    rewrite <- IH. f_equal. unfold rename_state. simpl.
    by rewrite !fmap_app, set_map_union_L, set_map_singleton_L.
Qed.

Lemma rendered_rename (l : list (Z * string)) : (prod_map f id <$> l).*2 = l.*2.
Proof. rewrite <- list_fmap_compose. by apply list_fmap_ext; intros ? []. Qed.

Section Run.

Variables RST_PATH DATE_STRING : string.

Lemma visit_module_rename (node level : Z) (queue : list (Z * Z))
    (enq : gset Z) :
  visit_module (rename_heap f h) RST_PATH DATE_STRING (f node) level
    (prod_map f id <$> queue) (set_map f enq) =
  sv ← visit_module h RST_PATH DATE_STRING node level queue enq;
  Ok (rename_state f sv.1, rename_visit f sv.2).
Proof.
  unfold visit_module. rewrite get_public_attributes_rename.
  pose proof (scan_children_rename node level (get_public_attributes h node)
                (ScanState queue enq [] [])) as Hscan.
  unfold rename_state at 1 in Hscan. simpl in Hscan. rewrite Hscan.
  destruct (scan_children h node level _ _) as [st|]; simpl; [| done].
  rewrite !rendered_rename.
  destruct (String.eqb _ _); [done |].
  rewrite obj_at_rename. simpl.
  by destruct (py_name (obj_at h node)).
Qed.

Lemma bfs_rename (fuel : nat) (queue : list (Z * Z)) (enq : gset Z)
    (trace : list visit) :
  bfs (rename_heap f h) RST_PATH DATE_STRING fuel (prod_map f id <$> queue)
    (set_map f enq) (rename_visit f <$> trace) =
  rename_run f <$> bfs h RST_PATH DATE_STRING fuel queue enq trace.
Proof.
  revert queue enq trace.
  induction fuel as [|fuel IH]; intros [|[node level] queue] enq trace;
    try done.
  simpl. rewrite obj_at_rename. simpl.
  destruct (negb _); [apply IH |].
  rewrite is_documentable_module_rename.
  destruct (is_documentable_module h node) as [[]|]; [| apply IH | done].
  rewrite visit_module_rename.
  destruct (visit_module h RST_PATH DATE_STRING node level queue enq)
    as [[st v]|]; simpl; [| done].
  rewrite <- IH. by rewrite fmap_app.
Qed.

End Run.

Lemma size_rename_heap : size (rename_heap f h) = size h.
Proof.
  unfold rename_heap.
  transitivity (size (rename_obj f <$> h)); [| apply map_size_fmap].
  rewrite <- !length_map_to_list.
  rewrite (Permutation_length (map_to_list_kmap f (rename_obj f <$> h))).
  apply length_fmap.
Qed.

End Rename.

Lemma files_of_rename (f : Z → Z) (trace : list visit) :
  files_of (rename_visit f <$> trace) = files_of trace.
Proof.
  unfold files_of. generalize (∅ : gmap string string).
  induction trace as [|v trace IH]; intros fs; [done |].
  simpl. by rewrite IH.
Qed.

(** X17: the identities of the objects are used to tell them apart and
    for nothing else: two runs in which the objects of the same graph have
    other identities, as in two processes, make the same passes and write
    the same files. *)
Theorem output_independent_of_identities (f : Z → Z) `{!Inj (=) (=) f}
    (h : heap) (RST_PATH DATE_STRING : string) (queue : list (Z * Z))
    (enq : gset Z) :
  ∃ r,
    traverse_module_bfs h RST_PATH DATE_STRING queue enq = Some r ∧
    traverse_module_bfs (rename_heap f h) RST_PATH DATE_STRING
      (prod_map f id <$> queue) (set_map f enq) = Some (rename_run f r) ∧
    v_file <$> run_trace (rename_run f r) = v_file <$> run_trace r ∧
    files_of (run_trace (rename_run f r)) = files_of (run_trace r).
Proof.
  destruct (traverse_module_bfs_total h RST_PATH DATE_STRING queue enq)
    as [r Hrun].
  exists r. split; [done |].
  assert (Htrace : run_trace (rename_run f r) = rename_visit f <$> run_trace r)
    by (by destruct r).
  split_and!.
  - unfold traverse_module_bfs in *.
    rewrite length_fmap, size_rename_heap by done.
    pose proof (bfs_rename f h RST_PATH DATE_STRING
                  (length queue + size h) queue enq []) as Hrename.
    simpl in Hrename. rewrite Hrename, Hrun. reflexivity.
  - rewrite Htrace, <- list_fmap_compose. by apply list_fmap_ext.
  - rewrite Htrace. apply files_of_rename.
Qed.

Example renamed_library_run :
  (fun r => v_file <$> run_trace r) <$>
    traverse_module_bfs (rename_heap (Z.add 100) library_heap)
      "source" "03/11/26" [(101, 0)] {[101]} =
  (fun r => v_file <$> run_trace r) <$>
    traverse_module_bfs library_heap "source" "03/11/26" [(1, 0)] {[1]}.
Proof. vm_compute. reflexivity. Qed.

(** * Further properties of the script *)

(** ** Strings *)

Lemma append_nil_r (s : string) : s +:+ EmptyString = s.
Proof.
  induction s as [|c s IH]; [reflexivity |].
  change (String c (s +:+ EmptyString) = String c s). by f_equal.
Qed.

Lemma chars_app (a b : string) :
  list_ascii_of_string (a +:+ b) =
  list_ascii_of_string a ++ list_ascii_of_string b.
Proof.
  induction a as [|c a IH]; [reflexivity |].
  change (c :: list_ascii_of_string (a +:+ b) =
          c :: (list_ascii_of_string a ++ list_ascii_of_string b)).
  by f_equal.
Qed.

Lemma chars_inj (a b : string) :
  list_ascii_of_string a = list_ascii_of_string b → a = b.
Proof.
  intros Heq. rewrite <- (string_of_list_ascii_of_string a),
    <- (string_of_list_ascii_of_string b). by rewrite Heq.
Qed.

Lemma append_inv_head (p a b : string) : p +:+ a = p +:+ b → a = b.
Proof.
  intros Heq. apply chars_inj. apply (f_equal list_ascii_of_string) in Heq.
  rewrite !chars_app in Heq. by apply app_inv_head in Heq.
Qed.

Lemma append_inv_tail (t a b : string) : a +:+ t = b +:+ t → a = b.
Proof.
  intros Heq. apply chars_inj. apply (f_equal list_ascii_of_string) in Heq.
  rewrite !chars_app in Heq. by apply app_inv_tail in Heq.
Qed.

Lemma prefix_true (p s : string) :
  String.prefix p s = true ↔ ∃ post, s = p +:+ post.
Proof.
  revert s. induction p as [|c p IH]; intros s.
  - split; [intros _; by exists s | by destruct s].
  - destruct s as [|d s]; simpl.
    + split; [done | intros [post Hpost]; done].
    + destruct (Ascii.ascii_dec c d) as [->|Hne].
      * rewrite IH. split; intros [post Hpost]; exists post.
        -- change (String d s = String d (p +:+ post)). by f_equal.
        -- change (String d s = String d (p +:+ post)) in Hpost.
           by injection Hpost.
      * split; [done |]. intros [post Hpost].
        change (String d s = String c (p +:+ post)) in Hpost. congruence.
Qed.

Lemma contains_unfold (needle hay : string) :
  Str.contains needle hay =
  if String.prefix needle hay then true
  else match hay with
       | EmptyString => false
       | String _ rest => Str.contains needle rest
       end.
Proof. by destruct hay. Qed.

Lemma contains_true (needle hay : string) :
  Str.contains needle hay = true ↔
  ∃ pre post, hay = pre +:+ needle +:+ post.
Proof.
  split.
  - induction hay as [|c hay IH]; rewrite contains_unfold;
      destruct (String.prefix needle _) eqn:Hp; try done.
    + intros _. apply prefix_true in Hp as [post Hpost].
      by exists EmptyString, post.
    + intros _. apply prefix_true in Hp as [post Hpost].
      by exists EmptyString, post.
    + intros (pre & post & ->)%IH. by exists (String c pre), post.
  - intros (pre & post & ->). induction pre as [|c pre IH].
    + rewrite contains_unfold.
      assert (Hp : String.prefix needle (needle +:+ post) = true)
        by (apply prefix_true; by exists post).
      change (EmptyString +:+ needle +:+ post) with (needle +:+ post).
      by rewrite Hp.
    + rewrite contains_unfold.
      change (String c pre +:+ needle +:+ post)
        with (String c (pre +:+ needle +:+ post)).
      destruct (String.prefix needle _); [done | exact IH].
Qed.

Lemma replace_chars (a b : ascii) (s : string) :
  list_ascii_of_string (Str.replace a b s) =
  (fun c => if Ascii.eqb c a then b else c) <$> list_ascii_of_string s.
Proof. induction s as [|c s IH]; [done |]. simpl. by rewrite IH. Qed.

Lemma replace_app (a b : ascii) (s t : string) :
  Str.replace a b (s +:+ t) = Str.replace a b s +:+ Str.replace a b t.
Proof.
  induction s as [|c s IH]; [reflexivity |].
  change (String (if Ascii.eqb c a then b else c) (Str.replace a b (s +:+ t)) =
          String (if Ascii.eqb c a then b else c)
                 (Str.replace a b s +:+ Str.replace a b t)).
  by f_equal.
Qed.

Lemma replace_absent (a b : ascii) (s : string) :
  no_char a s → Str.replace a b s = s.
Proof.
  unfold no_char. induction s as [|c s IH]; [done |]. simpl.
  intros Hno. apply not_elem_of_cons in Hno as [Hne Hno].
  destruct (Ascii.eqb_spec c a) as [->|_]; [done |]. by rewrite IH.
Qed.

Lemma replace_removes (a b : ascii) (s : string) :
  a ≠ b → no_char a (Str.replace a b s).
Proof.
  intros Hab. unfold no_char. rewrite replace_chars.
  intros (c & Hc & _)%list_elem_of_fmap.
  destruct (Ascii.eqb_spec c a); congruence.
Qed.

Lemma replace_inj (a b : ascii) (s t : string) :
  no_char b s → no_char b t →
  Str.replace a b s = Str.replace a b t → s = t.
Proof.
  unfold no_char. revert t.
  induction s as [|c s IH]; intros [|d t]; simpl; try done.
  intros [Hc Hs]%not_elem_of_cons [Hd Ht]%not_elem_of_cons [= Hhead Htail].
  f_equal; [| by apply IH].
  destruct (Ascii.eqb_spec c a) as [->|?], (Ascii.eqb_spec d a) as [->|?];
    congruence.
Qed.

(** [s.split(sep)] and [sep.join] are inverse, and no part holds the
    separator. *)
Lemma split_nonempty (sep : ascii) (s : string) : Str.split sep s ≠ [].
Proof.
  destruct s as [|c s]; simpl; [done |].
  destruct (Ascii.eqb c sep); [done |]. by destruct (Str.split sep s).
Qed.

Lemma join_split (sep : ascii) (s : string) :
  Str.join (Str.chr sep) (Str.split sep s) = s.
Proof.
  unfold Str.join. induction s as [|c s IH]; [reflexivity |]. simpl.
  pose proof (split_nonempty sep s) as Hne.
  destruct (Ascii.eqb_spec c sep) as [->|Hc].
  - destruct (Str.split sep s) as [|seg segs]; [done |].
    change (String.concat (Str.chr sep) (EmptyString :: seg :: segs))
      with (String sep (String.concat (Str.chr sep) (seg :: segs))).
    by rewrite IH.
  - destruct (Str.split sep s) as [|seg segs]; [done |].
    rewrite <- IH. by destruct segs.
Qed.

Lemma split_no_sep (sep : ascii) (s : string) :
  Forall (no_char sep) (Str.split sep s).
Proof.
  unfold no_char. induction s as [|c s IH]; simpl.
  - constructor; [apply not_elem_of_nil | constructor].
  - destruct (Ascii.eqb_spec c sep) as [->|Hc].
    + constructor; [apply not_elem_of_nil | done].
    + destruct (Str.split sep s) as [|seg segs]; simpl.
      * constructor; [| done].
        intros [?|?%elem_of_nil]%elem_of_cons; done.
      * apply Forall_cons in IH as [Hseg Hsegs].
        constructor; [| done]. simpl. by apply not_elem_of_cons.
Qed.

Lemma split_last (sep : ascii) (s : string) :
  ∃ rest, s = rest +:+ List.last (Str.split sep s) EmptyString ∧
    (rest = EmptyString ∨ ∃ r, rest = r +:+ Str.chr sep) ∧
    no_char sep (List.last (Str.split sep s) EmptyString).
Proof.
  pose proof (join_split sep s) as Hjoin.
  pose proof (split_no_sep sep s) as Hno.
  pose proof (split_nonempty sep s) as Hne.
  destruct (Str.split sep s) as [|seg init _] using rev_ind; [done |].
  rewrite last_last.
  apply Forall_app in Hno as [_ Hno]. apply Forall_cons in Hno as [Hno _].
  destruct init as [|seg0 init].
  - exists EmptyString. simpl in Hjoin. by split_and!; [| left |].
  - exists (Str.join (Str.chr sep) (seg0 :: init) +:+ Str.chr sep).
    rewrite str_join_app in Hjoin by done.
    split_and!; [| right; by eexists | done].
    rewrite append_assoc. by rewrite <- Hjoin.
Qed.

Lemma split_last_append (sep : ascii) (p seg : string) :
  no_char sep seg →
  List.last (Str.split sep (p +:+ Str.chr sep +:+ seg)) EmptyString = seg.
Proof.
  intros Hseg.
  destruct (split_last sep (p +:+ Str.chr sep +:+ seg))
    as (rest & Heq & Hrest & Hlast).
  set (l := List.last _ _) in *.
  apply (f_equal list_ascii_of_string) in Heq.
  rewrite !chars_app in Heq. simpl in Heq.
  unfold no_char in *.
  assert (Hsuffix : ∀ (x y u v : list ascii),
            x ++ sep :: u = y ++ v → sep ∉ u → sep ∉ v →
            (y = [] ∨ ∃ y', y = y' ++ [sep]) → u = v).
  { intros x y u v Hxy Hu Hv Hy.
    apply (f_equal reverse) in Hxy.
    rewrite !reverse_app, reverse_cons in Hxy.
    rewrite <- app_assoc in Hxy. simpl in Hxy.
    assert (Hrev : ∀ (u v : list ascii) w w',
              sep ∉ u → sep ∉ v →
              u ++ sep :: w = v ++ w' → (w' = [] ∨ ∃ w'', w' = sep :: w'') →
              u = v).
    { clear. induction u as [|a u IH]; intros [|b v] w w' Hu Hv Hw Hw'.
      - done.
      - simpl in Hw. injection Hw as -> _. set_solver.
      - simpl in Hw. destruct Hw' as [->|[w'' ->]]; [done |].
        injection Hw as -> _. set_solver.
      - simpl in Hw. injection Hw as -> Hw. f_equal.
        eapply IH; [set_solver | set_solver | exact Hw | exact Hw']. }
    apply (inj reverse).
    eapply (Hrev (reverse u) (reverse v)); [by rewrite elem_of_reverse
      | by rewrite elem_of_reverse | exact Hxy |].
    destruct Hy as [->|[y' ->]]; [by left | right].
    rewrite reverse_app. simpl. by eexists. }
  symmetry. apply chars_inj.
  eapply (Hsuffix (list_ascii_of_string p) (list_ascii_of_string rest));
    [exact Heq | done | done |].
  destruct Hrest as [->|[r ->]]; [by left | right].
  rewrite chars_app. by eexists.
Qed.

(** ** Classifier *)

(** X1: [is_documentable_module m] returns true exactly for a module
    whose [__name__] has [gpflow] somewhere in it, not necessarily in
    front, and is not one of [IGNORE_MODULES]; it raises, with
    [AttributeError], exactly for a module without [__name__]; anything
    that is not a module is answered false without reading its name. *)
Theorem is_documentable_module_cases (h : heap) (m : Z) :
  (is_documentable_module h m = Ok true ↔
   py_kind (obj_at h m) = KModule ∧
   ∃ name pre post,
     py_name (obj_at h m) = Some name ∧
     name = pre +:+ "gpflow" +:+ post ∧ name ∉ IGNORE_MODULES)
  ∧ (∀ e, is_documentable_module h m = Raise e ↔
          py_kind (obj_at h m) = KModule ∧
          py_name (obj_at h m) = None ∧ e = AttributeError)
  ∧ (py_kind (obj_at h m) ≠ KModule → is_documentable_module h m = Ok false).
Proof.
  unfold is_documentable_module, inspect_ismodule.
  destruct (decide (py_kind (obj_at h m) = KModule)) as [Hk|Hk].
  - rewrite (bool_decide_eq_true_2 _ Hk).
    destruct (py_name (obj_at h m)) as [name|]; simpl.
    + split_and!; [| | done].
      * split.
        -- intros [= Hin]. apply in_namespace_true in Hin as [Hc Hi].
           apply contains_true in Hc as (pre & post & Hname).
           split; [done |]. by exists name, pre, post.
        -- intros (_ & name' & pre & post & [= <-] & Hname & Hi).
           f_equal. apply in_namespace_true. split; [| done].
           apply contains_true. by exists pre, post.
      * intros e. split; [done | by intros (_ & ? & _)].
    + split_and!; [| | done].
      * split; [done | by intros (_ & ? & ? & ? & ? & _)].
      * intros e. split; [by intros [= <-] | by intros (_ & _ & ->)].
  - rewrite (bool_decide_eq_false_2 _ Hk). split_and!; [| | done].
    + split; [done | by intros [? _]].
    + intros e. split; [done | by intros [? _]].
Qed.

(** ** Renderers *)

(** X2: [get_component_rst_string] returns the empty string exactly for a
    component that is neither a class nor a function nor of a type named
    [Dispatcher], when both names can be read and the level is in range;
    such an object is never a documentable component, so the traversal
    never collects an empty entry. *)
Theorem component_rst_empty_iff (h : heap) (module component level : Z) :
  (get_component_rst_string h module component level = Ok EmptyString ↔
   is_Some (py_name (obj_at h module)) ∧
   is_Some (py_name (obj_at h component)) ∧
   (∃ underline, level_underline level = Ok underline) ∧
   py_kind (obj_at h component) ≠ KClass ∧
   py_kind (obj_at h component) ≠ KFunction ∧
   py_type_name (obj_at h component) ≠ "Dispatcher")
  ∧ (get_component_rst_string h module component level = Ok EmptyString →
     is_documentable_component h component = Ok false).
Proof.
  assert (Hiff :
    get_component_rst_string h module component level = Ok EmptyString ↔
    is_Some (py_name (obj_at h module)) ∧
    is_Some (py_name (obj_at h component)) ∧
    (∃ underline, level_underline level = Ok underline) ∧
    py_kind (obj_at h component) ≠ KClass ∧
    py_kind (obj_at h component) ≠ KFunction ∧
    py_type_name (obj_at h component) ≠ "Dispatcher").
  { unfold get_component_rst_string, get_multidispatch_string,
      inspect_isclass, inspect_isfunction.
    destruct (py_name (obj_at h module)) as [mn|]; simpl;
      [| split; [done | by intros [[? ?] _]]].
    destruct (py_name (obj_at h component)) as [cn|]; simpl;
      [| split; [done | by intros (_ & [? ?] & _)]].
    destruct (level_underline level) as [u|]; simpl;
      [| split; [done | by intros (_ & _ & [? ?] & _)]].
    case_bool_decide as Hc.
    { split; [| by intros (_ & _ & _ & ? & _)].
      intros Hne. injection Hne as Hne.
      unfold SPHINX_CLASS_STRING, SPHINX_FUNC_STRING,
        SPHINX_MULTIDISPATCH_STRING in Hne.
      by destruct (lines_nonempty _ _ Hne). }
    case_bool_decide as Hf.
    { split; [| by intros (_ & _ & _ & _ & ? & _)].
      intros Hne. injection Hne as Hne.
      unfold SPHINX_CLASS_STRING, SPHINX_FUNC_STRING,
        SPHINX_MULTIDISPATCH_STRING in Hne.
      by destruct (lines_nonempty _ _ Hne). }
    destruct (String.eqb_spec (py_type_name (obj_at h component)) "Dispatcher")
      as [Ht|Ht].
    { split; [| by intros (_ & _ & _ & _ & _ & ?)].
      destruct (py_disp_name (obj_at h component)); simpl; [| done].
      destruct (py_funcs (obj_at h component)); simpl; [| done].
      destruct (mapM _ _); simpl; [| done].
      intros Hne. injection Hne as Hne.
      unfold SPHINX_CLASS_STRING, SPHINX_FUNC_STRING,
        SPHINX_MULTIDISPATCH_STRING in Hne.
      by destruct (lines_nonempty _ _ Hne). }
    split; [intros _ | done]. split_and!; eauto. }
  split; [exact Hiff |].
  intros (_ & _ & _ & Hc & Hf & Ht)%Hiff.
  unfold is_documentable_component, inspect_isfunction, inspect_isclass.
  rewrite !bool_decide_eq_false_2 by done.
  by destruct (String.eqb_spec (py_type_name (obj_at h component)) "Dispatcher").
Qed.

Lemma mapM_Ok_iff {A B} (f : A → result B) (l : list A) :
  (∃ k, mapM f l = Ok k) ↔ Forall (fun a => ∃ b, f a = Ok b) l.
Proof.
  split; [| apply mapM_Ok_exists].
  intros [k Hk]. apply mapM_Ok in Hk.
  induction Hk; constructor; eauto.
Qed.

Lemma mapM_Raise {A B} (f : A → result B) (l : list A) (e : exn) :
  mapM f l = Raise e → ∃ a, a ∈ l ∧ f a = Raise e.
Proof.
  induction l as [|a l IH]; [done |].
  change (mapM f (a :: l)) with (y ← f a; r ← mapM f l; mret (y :: r)).
  destruct (f a) as [b|e'] eqn:Hfa; simpl.
  - destruct (mapM f l) as [k|e'] eqn:Hl; simpl; [done |].
    intros [= ->]. destruct (IH eq_refl) as (a' & Hin & Ha').
    exists a'. split; [by right | done].
  - intros [= ->]. exists a. split; [by left | done].
Qed.

Lemma multidispatch_component_result (h : heap) (dispatch_name : string)
    (item : list Z * Z) :
  ((∃ block, multidispatch_component h dispatch_name item = Ok block) ↔
   readable_pair h item)
  ∧ (∀ e, multidispatch_component h dispatch_name item = Raise e →
          e = AttributeError).
Proof.
  destruct item as [args fname].
  unfold multidispatch_component, qualified_name, readable_pair. simpl.
  destruct (mapM (fun a => from_attr (py_name (obj_at h a))) args)
    as [names|e0] eqn:Hnames; simpl.
  - assert (Hargs : Forall (fun a => is_Some (py_name (obj_at h a))) args).
    { assert (Hex : ∃ k, mapM (fun a => from_attr (py_name (obj_at h a)))
                           args = Ok k) by eauto.
      apply mapM_Ok_iff in Hex.
      eapply Forall_impl; [exact Hex |]. intros a [b Hb].
      by destruct (py_name (obj_at h a)). }
    destruct (py_module (obj_at h fname)) as [fm|]; simpl.
    + destruct (py_name (obj_at h fname)) as [fn|]; simpl.
      * split; [| done]. split; [intros _; by split_and! | by eexists].
      * split; [| by intros e [= <-]].
        split; [by intros [? ?] | by intros (_ & _ & [? ?])].
    + split; [| by intros e [= <-]].
      split; [by intros [? ?] | by intros (_ & [? ?] & _)].
  - split.
    + split; [by intros [? ?] |]. intros (Hargs & _).
      assert (Hex : ∃ k, mapM (fun a => from_attr (py_name (obj_at h a)))
                           args = Ok k).
      { apply mapM_Ok_iff. eapply Forall_impl; [exact Hargs |].
        intros a [n Hn]. rewrite Hn. by eexists. }
      destruct Hex as [k Hk]. congruence.
    + intros e [= <-]. apply mapM_Raise in Hnames as (a & _ & Ha).
      destruct (py_name (obj_at h a)); simpl in Ha; congruence.
Qed.

(** X3: [get_multidispatch_string] renders a section exactly when the
    module's [__name__], the dispatcher's [name] and [funcs] and, for
    every registered pair, the [__name__] of each argument type and the
    [__module__] and [__name__] of the implementation can be read; one
    unreadable pair loses the whole section, and the only exception is
    [AttributeError]. *)
Theorem multidispatch_renders_iff_readable (h : heap) (md_component module : Z)
    (level : string) :
  ((∃ s, get_multidispatch_string h md_component module level = Ok s) ↔
   is_Some (py_name (obj_at h module)) ∧
   is_Some (py_disp_name (obj_at h md_component)) ∧
   ∃ items, py_funcs (obj_at h md_component) = Some items ∧
            Forall (readable_pair h) items)
  ∧ ((∃ s, get_multidispatch_string h md_component module level = Ok s) ∨
     get_multidispatch_string h md_component module level
     = Raise AttributeError).
Proof.
  unfold get_multidispatch_string.
  destruct (py_name (obj_at h module)) as [mn|]; simpl;
    [| split; [split; [by intros [? ?] | by intros [[? ?] _]] | by right]].
  destruct (py_disp_name (obj_at h md_component)) as [dn|]; simpl;
    [| split; [split; [by intros [? ?] | by intros (_ & [? ?] & _)] | by right]].
  destruct (py_funcs (obj_at h md_component)) as [items|]; simpl;
    [| split; [split; [by intros [? ?] | by intros (_ & _ & ? & ? & _)]
              | by right]].
  destruct (mapM (multidispatch_component h (mn +:+ "." +:+ dn)) items)
    as [blocks|e] eqn:Hblocks; simpl.
  - split; [| left; by eexists].
    split; [intros _ | by eexists].
    split_and!; [by eexists | by eexists |]. exists items. split; [done |].
    assert (Hex : ∃ k, mapM (multidispatch_component h (mn +:+ "." +:+ dn))
                         items = Ok k) by eauto.
    apply mapM_Ok_iff in Hex. eapply Forall_impl; [exact Hex |].
    intros item. apply multidispatch_component_result.
  - apply mapM_Raise in Hblocks as (item & Hin & Hitem).
    pose proof (proj2 (multidispatch_component_result h _ item) e Hitem) as ->.
    split; [| by right]. split; [by intros [? ?] |].
    intros (_ & _ & items' & [= <-] & Hall).
    rewrite Forall_forall in Hall.
    apply (proj1 (multidispatch_component_result h (mn +:+ "." +:+ dn) item))
      in Hall as [b Hb]; [congruence | done].
Qed.

(** ** Paths and links *)

(** X4: two node names without a slash that [write_to_rst_file] sends to
    the same file are the same name: modules with different names never
    share a document. *)
Theorem distinct_names_distinct_files (RST_PATH DATE_STRING : string)
    (n1 c1 n2 c2 : string) :
  no_char "/" n1 → no_char "/" n2 →
  (write_to_rst_file RST_PATH DATE_STRING n1 c1).1 =
  (write_to_rst_file RST_PATH DATE_STRING n2 c2).1 →
  n1 = n2.
Proof.
  intros H1 H2. unfold write_to_rst_file. simpl.
  rewrite !append_assoc.
  intros Heq%append_inv_head%append_inv_head%append_inv_tail.
  by eapply replace_inj.
Qed.

Lemma distinct_names_distinct_files_witness :
  no_char "/" "gpflow.kernels" ∧
  (write_to_rst_file "source" "03/11/26" "gpflow.kernels" "a").1 =
    "source/gpflow/kernels/index.rst" ∧
  "gpflow.kernels" = "gpflow.kernels".
Proof.
  assert (Hno : no_char "/" "gpflow.kernels")
    by (unfold no_char; vm_compute; set_solver).
  split; [exact Hno |]. split; [reflexivity |].
  apply (distinct_names_distinct_files "source" "03/11/26"
           "gpflow.kernels" "a" "gpflow.kernels" "b");
    [exact Hno | exact Hno | reflexivity].
Defined.

(** X5: the entry a document gives for a submodule resolves to the
    submodule's own file: when the child's name is the parent's name, a
    dot and a dot-free last part, [get_module_rst_string] links
    [part/index], and [write_to_rst_file] writes the child's file as
    [part/index.rst] in the directory of the parent's file. *)
Theorem toctree_entry_resolves (h : heap) (RST_PATH DATE_STRING : string)
    (child level : Z) (parent_name child_name part c c' : string) :
  py_name (obj_at h child) = Some child_name →
  child_name = parent_name +:+ "." +:+ part →
  no_char "." part →
  0 ≤ level < 6 →
  ∃ underline dir,
    get_module_rst_string h child level =
      Ok (SPHINX_INCLUDE_MODULE_STRING child_name underline part) ∧
    (write_to_rst_file RST_PATH DATE_STRING parent_name c).1 =
      dir +:+ "/index.rst" ∧
    (write_to_rst_file RST_PATH DATE_STRING child_name c').1 =
      dir +:+ "/" +:+ part +:+ "/index.rst".
Proof.
  intros Hname -> Hpart Hlevel.
  destruct (getitem_in_range RST_LEVEL_SYMBOLS level) as (symbol & _ & Hg);
    [simpl; lia |].
  exists (Str.repeat symbol 6),
         (RST_PATH +:+ "/" +:+ Str.replace "." "/" parent_name).
  split_and!.
  - unfold get_module_rst_string, level_underline. rewrite Hg. simpl.
    rewrite Hname. simpl. do 2 f_equal.
    by apply (split_last_append "." parent_name part).
  - unfold write_to_rst_file. simpl. by rewrite !append_assoc.
  - unfold write_to_rst_file. simpl.
    rewrite !replace_app, (replace_absent "." "/" part) by done.
    by rewrite !append_assoc.
Qed.

Lemma toctree_entry_resolves_witness :
  ∃ underline dir,
    get_module_rst_string library_heap 10 0 =
      Ok (SPHINX_INCLUDE_MODULE_STRING "gpflow.kernels" underline "kernels") ∧
    (write_to_rst_file "source" "03/11/26" "gpflow" "a").1 =
      dir +:+ "/index.rst" ∧
    (write_to_rst_file "source" "03/11/26" "gpflow.kernels" "b").1 =
      dir +:+ "/" +:+ "kernels" +:+ "/index.rst".
Proof.
  apply (toctree_entry_resolves library_heap "source" "03/11/26" 10 0
           "gpflow" "gpflow.kernels" "kernels" "a" "b").
  - reflexivity.
  - reflexivity.
  - unfold no_char. vm_compute. set_solver.
  - lia.
Defined.

(** X6: the entry [get_module_rst_string] links is what follows the last
    dot of the module's name, or the whole name when it has no dot. *)
Theorem toctree_entry_is_last_part (h : heap) (module level : Z)
    (rst : string) :
  get_module_rst_string h module level = Ok rst →
  ∃ name underline rest part,
    py_name (obj_at h module) = Some name ∧
    name = rest +:+ part ∧
    (rest = EmptyString ∨ ∃ r, rest = r +:+ ".") ∧
    no_char "." part ∧
    rst = SPHINX_INCLUDE_MODULE_STRING name underline part.
Proof.
  unfold get_module_rst_string.
  destruct (level_underline level) as [underline|]; simpl; [| done].
  destruct (py_name (obj_at h module)) as [name|]; simpl; [| done].
  intros [= <-].
  destruct (split_last "." name) as (rest & Hname & Hrest & Hpart).
  by exists name, underline, rest, (List.last (Str.split "." name) EmptyString).
Qed.

Lemma toctree_entry_is_last_part_witness :
  ∃ name underline rest part,
    py_name (obj_at library_heap 12) = Some name ∧
    name = rest +:+ part ∧
    (rest = EmptyString ∨ ∃ r, rest = r +:+ ".") ∧
    no_char "." part ∧
    SPHINX_INCLUDE_MODULE_STRING "gpflow.kernels.stationaries" "------"
      "stationaries" =
    SPHINX_INCLUDE_MODULE_STRING name underline part.
Proof.
  apply (toctree_entry_is_last_part library_heap 12 1). reflexivity.
Defined.

(** ** The output root *)

Section Roots.

Variable h : heap.
Variables p1 p2 DATE_STRING : string.

Lemma visit_module_roots node level queue enq :
  match visit_module h p1 DATE_STRING node level queue enq,
        visit_module h p2 DATE_STRING node level queue enq with
  | Ok (st1, v1), Ok (st2, v2) => st1 = st2 ∧ same_visit_but_root p1 p2 v1 v2
  | Raise e1, Raise e2 => e1 = e2
  | _, _ => False
  end.
Proof.
  unfold visit_module.
  destruct (scan_children _ _ _ _ _) as [st|e]; simpl; [| done].
  destruct (String.eqb _ _).
  - split; [done |]. unfold same_visit_but_root. simpl.
    split_and!; try done. constructor.
  - destruct (py_name (obj_at h node)) as [name|]; simpl; [| done].
    split; [done |]. unfold same_visit_but_root. simpl.
    split_and!; try done. constructor. simpl. split; [| done].
    exists ("/" +:+ Str.replace "." "/" name +:+ "/index.rst").
    by rewrite !append_assoc.
Qed.

Lemma bfs_roots fuel queue enq t1 t2 :
  Forall2 (same_visit_but_root p1 p2) t1 t2 →
  option_Forall2 (same_run_but_root p1 p2)
    (bfs h p1 DATE_STRING fuel queue enq t1)
    (bfs h p2 DATE_STRING fuel queue enq t2).
Proof.
  revert queue enq t1 t2.
  induction fuel as [|fuel IH]; intros [|[node level] queue] enq t1 t2 Ht;
    simpl; try (by repeat constructor).
  destruct (negb _); [by apply IH |].
  destruct (is_documentable_module h node) as [[]|e];
    [| by apply IH | by repeat constructor].
  pose proof (visit_module_roots node level queue enq) as Hv.
  destruct (visit_module h p1 DATE_STRING node level queue enq)
    as [[st1 v1]|e1],
    (visit_module h p2 DATE_STRING node level queue enq) as [[st2 v2]|e2];
    try done.
  - destruct Hv as [<- Hv]. apply IH. apply Forall2_app; [done |].
    by constructor.
  - subst. by repeat constructor.
Qed.

End Roots.

(** X7: [set_global_path] only moves the output: the run after
    [set_global_path path] makes the same passes and ends the same way as
    the run before it, and each file has the same text and the same path
    but for the output root in front. *)
Theorem output_root_is_a_prefix (h : heap) (g : globals)
    (path DATE_STRING : string) (queue : list (Z * Z)) (enq : gset Z) :
  ∃ r1 r2,
    traverse_module_bfs h (g_RST_PATH g) DATE_STRING queue enq = Some r1 ∧
    traverse_module_bfs h (g_RST_PATH (set_global_path path g)) DATE_STRING
      queue enq = Some r2 ∧
    same_run_but_root (g_RST_PATH g) path r1 r2.
Proof.
  simpl.
  destruct (traverse_module_bfs_total h (g_RST_PATH g) DATE_STRING queue enq)
    as [r1 Hr1].
  destruct (traverse_module_bfs_total h path DATE_STRING queue enq)
    as [r2 Hr2].
  exists r1, r2. split; [done |]. split; [done |].
  pose proof (bfs_roots h (g_RST_PATH g) path DATE_STRING
                (length queue + size h) queue enq
                [] [] ltac:(constructor)) as Hrel.
  unfold traverse_module_bfs in Hr1, Hr2. rewrite Hr1, Hr2 in Hrel.
  by inversion Hrel.
Qed.

(** ** What a pass documents *)


Lemma scanned_sublist h node level children st st' :
  scanned h node level children st st' →
  ∃ lc lm,
    (s_components st').*1 = (s_components st).*1 ++ lc ∧
    (s_modules st').*1 = (s_modules st).*1 ++ lm ∧
    lc `sublist_of` children ∧ lm `sublist_of` children.
Proof.
  induction 1 as [st|child rest st st' Hin Hscan IH
                 |child rest st st' rst Hin Hc Hr Hscan IH
                 |child rest st st' rst Hin Hc Hm Hv Hr Hscan IH
                 |child rest st st' Hin Hc Hwhy Hscan IH].
  - exists [], []. rewrite !app_nil_r. by split_and!.
  - destruct IH as (lc & lm & ? & ? & ? & ?). exists lc, lm.
    split_and!; try done; by apply sublist_cons.
  - destruct IH as (lc & lm & Hcs & Hms & Hlc & Hlm). simpl in *.
    exists (child :: lc), lm. split_and!; try done.
    + by rewrite Hcs, fmap_app, <- app_assoc.
    + by apply sublist_skip.
    + by apply sublist_cons.
  - destruct IH as (lc & lm & Hcs & Hms & Hlc & Hlm). simpl in *.
    exists lc, (child :: lm). split_and!; try done.
    + by rewrite Hms, fmap_app, <- app_assoc.
    + by apply sublist_cons.
    + by apply sublist_skip.
  - destruct IH as (lc & lm & ? & ? & ? & ?). exists lc, lm.
    split_and!; try done; by apply sublist_cons.
Qed.


Lemma is_documentable_module_name (h : heap) (m : Z) :
  is_documentable_module h m = Ok true →
  ∃ name, py_name (obj_at h m) = Some name ∧
          Str.contains "gpflow" name = true ∧ name ∉ IGNORE_MODULES.
Proof.
  unfold is_documentable_module.
  destruct (inspect_ismodule h m); [| done].
  destruct (py_name (obj_at h m)) as [name|]; simpl; [| done].
  intros [= Hin]. apply in_namespace_true in Hin. by exists name.
Qed.



(** ** The loop as a whole *)

Section LoopFacts.

Variable h : heap.
Variables RST_PATH DATE_STRING : string.

(** Induction over the passes that keeps the reason an entry is skipped
    and says that the queue is empty when the loop returns. *)
Lemma bfs_invariant_returned
    (I : list (Z * Z) → gset Z → list visit → Prop) :
  (∀ node level queue enq trace,
     I ((node, level) :: queue) enq trace →
     py_name (obj_at h node) = None ∨
       is_documentable_module h node = Ok false →
     I queue enq trace) →
  (∀ node level queue enq trace st v,
     I ((node, level) :: queue) enq trace →
     is_documentable_module h node = Ok true →
     visit_module h RST_PATH DATE_STRING node level queue enq = Ok (st, v) →
     I (s_queue st) (s_enqueued st) (trace ++ [v])) →
  ∀ fuel queue enq trace r,
    I queue enq trace →
    bfs h RST_PATH DATE_STRING fuel queue enq trace = Some r →
    match r with
    | Returned trace' enq' => I [] enq' trace'
    | Raised trace' _ => ∃ queue' enq', I queue' enq' trace'
    end.
Proof.
  intros Hskip Hvisit fuel.
  induction fuel as [|fuel IH]; intros [|[node level] queue] enq trace r HI;
    simpl; try done; try (by intros [= <-]).
  destruct (py_name (obj_at h node)) as [name|] eqn:Hname; simpl.
  - destruct (is_documentable_module h node) as [[]|e] eqn:Hm.
    + destruct (visit_module _ _ _ _ _ _ _) as [[st v]|e] eqn:Hv;
        [| intros [= <-]; by eauto].
      apply IH. by eapply Hvisit.
    + apply IH. eapply Hskip; [exact HI | by right].
    + intros [= <-]. by eauto.
  - apply IH. eapply Hskip; [exact HI | by left].
Qed.

Lemma bfs_fuel_mono fuel queue enq trace r :
  bfs h RST_PATH DATE_STRING fuel queue enq trace = Some r →
  bfs h RST_PATH DATE_STRING (S fuel) queue enq trace = Some r.
Proof.
  revert queue enq trace.
  induction fuel as [|fuel IH]; intros [|[node level] queue] enq trace;
    try done.
  intros Hrun. cbn [bfs] in Hrun. cbn [bfs].
  destruct (negb _); [by apply IH |].
  destruct (is_documentable_module h node) as [[]|e]; [| by apply IH | done].
  destruct (visit_module _ _ _ _ _ _ _) as [[st v]|e]; [| done].
  by apply IH.
Qed.

Lemma bfs_fuel_le fuel fuel' queue enq trace r :
  (fuel ≤ fuel')%nat →
  bfs h RST_PATH DATE_STRING fuel queue enq trace = Some r →
  bfs h RST_PATH DATE_STRING fuel' queue enq trace = Some r.
Proof.
  induction 1 as [|fuel' _ IH]; [done |].
  intros Hrun. apply bfs_fuel_mono. by apply IH.
Qed.

Lemma no_pass_without_documentable_module (queue : list (Z * Z))
    (enq : gset Z) (trace : list visit) (fuel : nat) :
  Forall (fun e => is_documentable_module h e.1 ≠ Ok true) queue →
  (length queue ≤ fuel)%nat →
  bfs h RST_PATH DATE_STRING fuel queue enq trace = Some (Returned trace enq).
Proof.
  revert fuel. induction queue as [|[node level] queue IH]; intros fuel Hall Hf.
  - by destruct fuel.
  - apply Forall_cons in Hall as [Hnode Hall]. simpl in Hnode, Hf.
    destruct fuel as [|fuel]; [lia |]. cbn [bfs].
    destruct (py_name (obj_at h node)) as [name|] eqn:Hname; simpl;
      [| apply IH; [done | lia]].
    revert Hnode. unfold is_documentable_module.
    destruct (inspect_ismodule h node); [| intros _; apply IH; [done | lia]].
    rewrite Hname. simpl.
    destruct (in_namespace name); [done |].
    intros _. apply IH; [done | lia].
Qed.

End LoopFacts.

(** X10: the loop ends on every object graph, cycles of modules
    included: it makes at most as many passes as the queue has entries
    and the graph has objects not yet in [enqueued_items], and with any
    bound on the number of iterations at least that large it ends the
    same way. *)
Theorem traversal_terminates (h : heap) (RST_PATH DATE_STRING : string)
    (queue : list (Z * Z)) (enq : gset Z) :
  ∃ r, traverse_module_bfs h RST_PATH DATE_STRING queue enq = Some r ∧
    (length (run_trace r) ≤ length queue + size (dom h ∖ enq))%nat ∧
    ∀ fuel, (length queue + size (dom h ∖ enq) ≤ fuel)%nat →
            bfs h RST_PATH DATE_STRING fuel queue enq [] = Some r.
Proof.
  destruct (traverse_module_bfs_total h RST_PATH DATE_STRING queue enq)
    as [r Hrun].
  exists r. split; [done |]. split.
  - destruct (bfs_invariant h RST_PATH DATE_STRING
                (fun q e t =>
                   (length t + (length q + size (dom h ∖ e)) ≤
                    length queue + size (dom h ∖ enq))%nat))
      with (fuel := (length queue + size h)%nat) (queue := queue) (enq := enq)
           (trace := @nil visit) (r := r)
      as (q' & e' & Hle); try done; [| | lia].
    + intros entry q e t. simpl. lia.
    + intros node level q e t st v Hle _ Hv.
      apply visit_module_spec in Hv as (Hscan & _).
      destruct (scanned_adds _ _ _ _ _ _ Hscan) as (new_c & new_m & Hadds).
      apply scan_adds_measure in Hadds. simpl in Hadds, Hle.
      rewrite length_app. simpl. lia.
  - intros fuel Hfuel.
    destruct (bfs_total h RST_PATH DATE_STRING fuel queue enq [] Hfuel)
      as [r' Hr'].
    rewrite Hr'. f_equal.
    unfold traverse_module_bfs in Hrun.
    destruct (decide (fuel ≤ length queue + size h)%nat) as [Hle|Hgt].
    + apply (bfs_fuel_le _ _ _ _ _ _ _ _ _ Hle) in Hr'. congruence.
    + apply (bfs_fuel_le h RST_PATH DATE_STRING _ fuel) in Hrun; [| lia].
      congruence.
Qed.

(** X11: when the entries of the queue are distinct objects, all in
    [enqueued_items], as [main] starts the loop, no module gets two
    passes: the nodes of the passes of a run are pairwise distinct. *)
Theorem each_module_visited_once (h : heap) (RST_PATH DATE_STRING : string)
    (queue : list (Z * Z)) (enq : gset Z) :
  NoDup queue.*1 →
  (∀ n, n ∈ queue.*1 → n ∈ enq) →
  ∃ r, traverse_module_bfs h RST_PATH DATE_STRING queue enq = Some r ∧
       NoDup (v_node <$> run_trace r).
Proof.
  intros Hnd Hin.
  destruct (traverse_module_bfs_total h RST_PATH DATE_STRING queue enq)
    as [r Hrun].
  exists r. split; [done |].
  destruct (bfs_invariant h RST_PATH DATE_STRING
              (fun q e t =>
                 NoDup ((v_node <$> t) ++ q.*1) ∧
                 ∀ n, n ∈ (v_node <$> t) ++ q.*1 → n ∈ e))
    with (fuel := (length queue + size h)%nat) (queue := queue) (enq := enq)
         (trace := @nil visit) (r := r)
    as (q' & e' & Hfinal & _); try done.
  - intros [n l] q e t [Hq He]. simpl in *. split.
    + apply NoDup_app in Hq as (Ht & Hdisj & Hq).
      apply NoDup_cons in Hq as [_ Hq].
      apply NoDup_app. split_and!; [done | | done].
      intros x Hx Hxq. apply (Hdisj x Hx). by right.
    + intros x Hx. apply He. set_solver.
  - intros node level q e t st v [Hq He] _ Hv. simpl in *.
    destruct (visit_module_ids _ _ _ _ _ _ _ _ _ Hv)
      as (new_c & new_m & Hadds & _ & _).
    apply visit_module_spec in Hv as (_ & Hnode & _).
    destruct Hadds as (_ & _ & Hqueue & Henq & Hnew & Hns & _).
    simpl in Hqueue, Henq, Hns.
    assert (Hadded : (((fun en : Z * string => (en.1, level + 1)) <$> new_m)
                      : list (Z * Z)).*1 = new_m.*1).
    { rewrite <- list_fmap_compose. by apply list_fmap_ext. }
    rewrite Hqueue, Henq, !fmap_app, Hadded. simpl. rewrite Hnode.
    replace (((v_node <$> t) ++ [node]) ++ q.*1 ++ new_m.*1)
      with (((v_node <$> t) ++ node :: q.*1) ++ new_m.*1)
      by (by rewrite <- !app_assoc).
    split.
    + apply NoDup_app. split_and!; [done | |].
      * intros x Hx Hxnew. rewrite Forall_forall in Hns.
        apply (Hns x); [set_solver |]. left. by apply He.
      * by apply NoDup_app in Hnew as (_ & _ & ?).
    + intros x [Hx|Hx]%elem_of_app.
      * apply elem_of_union_r. by apply He.
      * apply elem_of_union_l, elem_of_list_to_set. set_solver.
  - by apply NoDup_app in Hfinal as (? & _).
Qed.

Lemma each_module_visited_once_witness :
  ∃ r, traverse_module_bfs library_heap "source" "03/11/26" [(1, 0)] {[1]}
       = Some r ∧
       NoDup (v_node <$> run_trace r).
Proof.
  apply (each_module_visited_once library_heap "source" "03/11/26"
           [(1, 0)] {[1]}).
  - simpl. apply NoDup_singleton.
  - simpl. intros n Hn. set_solver.
Defined.

(** X12: when the loop returns, the set the caller passed as
    [enqueued_items] holds what it held before and, besides, exactly the
    identities the run documented. *)
Theorem final_enqueued_items (h : heap) (RST_PATH DATE_STRING : string)
    (queue : list (Z * Z)) (enq : gset Z) :
  ∃ r, traverse_module_bfs h RST_PATH DATE_STRING queue enq = Some r ∧
    match r with
    | Returned trace enq' =>
        enq' = enq ∪ list_to_set (mjoin (visit_ids <$> trace))
    | Raised _ _ => True
    end.
Proof.
  destruct (traverse_module_bfs_total h RST_PATH DATE_STRING queue enq)
    as [r Hrun].
  exists r. split; [done |].
  pose proof (bfs_invariant_returned h RST_PATH DATE_STRING
                (fun _ e t => e = enq ∪ list_to_set (mjoin (visit_ids <$> t))))
    as Hinv.
  specialize (Hinv ltac:(done)).
  assert (Hstep : ∀ node level q e t st v,
            e = enq ∪ list_to_set (mjoin (visit_ids <$> t)) →
            is_documentable_module h node = Ok true →
            visit_module h RST_PATH DATE_STRING node level q e = Ok (st, v) →
            s_enqueued st =
              enq ∪ list_to_set (mjoin (visit_ids <$> t ++ [v]))).
  { intros node level q e t st v -> _ Hv.
    destruct (visit_module_ids _ _ _ _ _ _ _ _ _ Hv)
      as (new_c & new_m & Hadds & Hvc & Hvm).
    destruct Hadds as (_ & _ & _ & -> & _). simpl.
    assert (Hids : visit_ids v = new_c.*1 ++ new_m.*1)
      by (unfold visit_ids; by rewrite Hvc, Hvm).
    rewrite fmap_app, join_app. simpl. rewrite app_nil_r, Hids.
    rewrite list_to_set_app_L. set_solver. }
  specialize (Hinv Hstep (length queue + size h)%nat queue enq [] r).
  destruct r as [t e'|]; [| done].
  apply Hinv; [| exact Hrun]. simpl. set_solver.
Qed.

(** X13: when the object [main] starts from is not a documentable
    module, a package whose name does not hold [gpflow] for one, the run
    makes no pass, writes no file, raises nothing and leaves
    [enqueued_items] as it was. *)
Theorem main_without_documentable_root (h : heap) (g : globals)
    (DATE_STRING : string) (gpflow : Z) :
  is_documentable_module h gpflow ≠ Ok true →
  main h g DATE_STRING gpflow = Some (Returned [] {[gpflow]}).
Proof.
  intros Hroot. unfold main, traverse_module_bfs.
  apply no_pass_without_documentable_module.
  - by constructor.
  - simpl. lia.
Qed.

Lemma main_without_documentable_root_witness :
  main metaclass_heap initial_globals "03/11/26" 1
  = Some (Returned [] {[1]}).
Proof.
  apply (main_without_documentable_root metaclass_heap initial_globals
           "03/11/26" 1).
  discriminate.
Defined.

(** ** Links and levels in the run of [main] *)

Section Links.

Variable h : heap.
Variables RST_PATH DATE_STRING : string.
Variable root : Z.

Lemma visit_module_links node level queue enq st v :
  visit_module h RST_PATH DATE_STRING node level queue enq = Ok (st, v) →
  v_node v = node ∧ v_level v = level ∧
  s_queue st = queue ++ ((fun e => (e.1, level + 1)) <$> v_modules v) ∧
  Forall (fun e => is_documentable_module h e.1 = Ok true) (v_modules v).
Proof.
  intros Hv.
  destruct (visit_module_ids _ _ _ _ _ _ _ _ _ Hv)
    as (new_c & new_m & Hadds & _ & ->).
  apply visit_module_spec in Hv as (_ & Hnode & Hlevel & _).
  destruct Hadds as (_ & _ & Hq & _ & _ & _ & _ & Hfm). simpl in Hq.
  split_and!; try done.
  eapply Forall_impl; [exact Hfm |]. by intros e [? _].
Qed.

Lemma linked_from_app trace v j vj :
  linked_from trace j vj → linked_from (trace ++ [v]) j vj.
Proof.
  intros (i & vi & Hij & Hi & Hm & Hl). exists i, vi.
  split_and!; try done. by apply lookup_app_l_Some.
Qed.

(** Every pass but the first, over the root, is a pass over a module
    that an earlier pass linked. *)
Lemma bfs_linked r :
  traverse_module_bfs h RST_PATH DATE_STRING [(root, 0)] {[root]} = Some r →
  ∀ (j : nat) vj, run_trace r !! j = Some vj →
    (j = 0%nat ∧ v_node vj = root ∧ v_level vj = 0) ∨
    linked_from (run_trace r) j vj.
Proof.
  intros Hrun.
  destruct (bfs_invariant h RST_PATH DATE_STRING
    (fun q (_ : gset Z) t =>
       ((t = [] ∧ q = [(root, 0)]) ∨
        Forall (fun en => ∃ (i : nat) vi, t !! i = Some vi ∧
                  en.1 ∈ (v_modules vi).*1 ∧ en.2 = v_level vi + 1) q) ∧
       ∀ (j : nat) vj, t !! j = Some vj →
         (j = 0%nat ∧ v_node vj = root ∧ v_level vj = 0) ∨
         linked_from t j vj))
    with (fuel := (length [(root, 0)] + size h)%nat) (queue := [(root, 0)])
         (enq := ({[root]} : gset Z)) (trace := @nil visit) (r := r)
    as (_ & _ & _ & Hfinal); try done.
  - intros entry q e t [Hq Ht]. split; [| done]. right.
    destruct Hq as [[_ [= _ ->]]|Hq]; [constructor | by inversion Hq].
  - intros node level q e t st v [Hq Ht] _ Hv.
    apply visit_module_links in Hv as (Hnode & Hlevel & -> & _).
    assert (Hnew : Forall (fun en => ∃ (i : nat) vi,
                     (t ++ [v]) !! i = Some vi ∧
                     en.1 ∈ (v_modules vi).*1 ∧ en.2 = v_level vi + 1)
                    ((fun e => (e.1, level + 1)) <$> v_modules v)).
    { apply Forall_fmap, Forall_forall. intros [m rst] Hm.
      exists (length t), v. simpl. split_and!.
      - by rewrite lookup_app_r, Nat.sub_diag by lia.
      - apply list_elem_of_fmap. by exists (m, rst).
      - by rewrite Hlevel. }
    assert (Hhead : (t = [] ∧ node = root ∧ level = 0) ∨
                    linked_from (t ++ [v]) (length t) v).
    { destruct Hq as [[-> [= -> -> _]]|Hq]; [by left | right].
      apply Forall_cons in Hq as [(i & vi & Hi & Hm & Hl) _]. simpl in *.
      exists i, vi. split_and!.
      - by eapply lookup_lt_Some.
      - by apply lookup_app_l_Some.
      - by rewrite Hnode.
      - by rewrite Hlevel. }
    split.
    + right. apply Forall_app. split; [| done].
      destruct Hq as [[_ [= _ _ ->]]|Hq]; [constructor |].
      apply Forall_cons in Hq as [_ Hq].
      eapply Forall_impl; [exact Hq |].
      intros en (i & vi & Hi & ? & ?). exists i, vi.
      split_and!; try done. by apply lookup_app_l_Some.
    + intros j vj Hj.
      destruct (decide (j < length t)%nat) as [Hlt|Hge].
      * rewrite lookup_app_l in Hj by done.
        destruct (Ht j vj Hj) as [?|?]; [by left | right].
        by apply linked_from_app.
      * assert (j = length t) as ->.
        { apply lookup_lt_Some in Hj. rewrite length_app in Hj.
          simpl in Hj. lia. }
        rewrite lookup_app_r, Nat.sub_diag in Hj by lia.
        injection Hj as <-.
        destruct Hhead as [(-> & -> & ->)|?]; [left | by right].
        by rewrite Hnode, Hlevel.
  - split; [by left |]. intros j vj Hj. by rewrite lookup_nil in Hj.
Qed.

(** When the loop returns, every module a pass linked got a pass of its
    own afterwards. *)
Lemma bfs_links_visited queue enq trace enq' :
  traverse_module_bfs h RST_PATH DATE_STRING queue enq
  = Some (Returned trace enq') →
  ∀ (i : nat) vi m, trace !! i = Some vi → m ∈ (v_modules vi).*1 →
    ∃ (j : nat) vj, (i < j)%nat ∧ trace !! j = Some vj ∧ v_node vj = m.
Proof.
  intros Hrun.
  pose proof (bfs_invariant_returned h RST_PATH DATE_STRING
    (fun q (_ : gset Z) t =>
       ∀ (i : nat) vi m, t !! i = Some vi → m ∈ (v_modules vi).*1 →
         is_documentable_module h m = Ok true ∧
         ((∃ (j : nat) vj, (i < j)%nat ∧ t !! j = Some vj ∧ v_node vj = m) ∨
          m ∈ q.*1))) as Hinv.
  assert (Hfinal : ∀ (i : nat) vi m,
            trace !! i = Some vi → m ∈ (v_modules vi).*1 →
            is_documentable_module h m = Ok true ∧
            ((∃ (j : nat) vj, (i < j)%nat ∧ trace !! j = Some vj ∧
                              v_node vj = m) ∨ m ∈ (@nil (Z * Z)).*1)).
  { apply (Hinv) with (fuel := (length queue + size h)%nat) (queue := queue)
      (enq := enq) (trace := @nil visit) (r := Returned trace enq');
      [| | | exact Hrun].
    - intros node level q e t Hold Hwhy i vi m Hi Hm.
      destruct (Hold i vi m Hi Hm) as [Hdoc [Hvisited|Hpending]];
        (split; [done |]); [by left |].
      simpl in Hpending. apply elem_of_cons in Hpending as [->|Hq];
        [| by right].
      destruct Hwhy as [Hname|Hnot]; [| congruence].
      apply is_documentable_module_name in Hdoc as (name & ? & _).
      congruence.
    - intros node level q e t st v Hold _ Hv i vi m Hi Hm.
      apply visit_module_links in Hv as (Hnode & _ & -> & Hdocs).
      destruct (decide (i < length t)%nat) as [Hlt|Hge].
      + rewrite lookup_app_l in Hi by done.
        destruct (Hold i vi m Hi Hm) as [Hdoc [Hvisited|Hpending]];
          (split; [done |]).
        * left. destruct Hvisited as (j & vj & ? & ? & ?).
          exists j, vj. split_and!; try done. by apply lookup_app_l_Some.
        * simpl in Hpending. apply elem_of_cons in Hpending as [->|Hq].
          -- left. exists (length t), v. split_and!; [done | | done].
             by rewrite lookup_app_r, Nat.sub_diag by lia.
          -- right. rewrite fmap_app. set_solver.
      + assert (i = length t) as ->.
        { apply lookup_lt_Some in Hi. rewrite length_app in Hi.
          simpl in Hi. lia. }
        rewrite lookup_app_r, Nat.sub_diag in Hi by lia.
        injection Hi as <-.
        apply list_elem_of_fmap in Hm as ([m' rst] & -> & Hm). simpl.
        split.
        * rewrite Forall_forall in Hdocs. by apply (Hdocs _ Hm).
        * right. rewrite fmap_app. apply elem_of_app. right.
          rewrite <- list_fmap_compose. apply list_elem_of_fmap.
          by exists (m', rst).
    - intros i vi m Hi. by rewrite lookup_nil in Hi. }
  intros i vi m Hi Hm.
  destruct (Hfinal i vi m Hi Hm) as [_ [?|Hnil]]; [done |].
  by apply elem_of_nil in Hnil.
Qed.

Lemma scanned_rendered_level node level children st st' :
  scanned h node level children st st' →
  (s_components st' = s_components st ∧ s_modules st' = s_modules st) ∨
  ∃ underline, level_underline level = Ok underline.
Proof.
  induction 1 as [st|child rest st st' Hin Hscan IH
                 |child rest st st' rst Hin Hc Hr Hscan IH
                 |child rest st st' rst Hin Hc Hm Hv Hr Hscan IH
                 |child rest st st' Hin Hc Hwhy Hscan IH];
    [by left | done | | | done]; right.
  - revert Hr. unfold get_component_rst_string.
    destruct (py_name (obj_at h node)); simpl; [| done].
    destruct (py_name (obj_at h child)); simpl; [| done].
    destruct (level_underline level); [by eexists | done].
  - revert Hr. unfold get_module_rst_string.
    destruct (level_underline level); [by eexists | done].
Qed.

End Links.

Lemma level_underline_range (level : Z) (underline : string) :
  level_underline level = Ok underline → -6 ≤ level ≤ 5.
Proof.
  unfold level_underline, getitem. simpl length.
  destruct (Z.ltb_spec level 0) as [Hneg|Hpos].
  - destruct (Z.ltb_spec (level + Z.of_nat 6) 0); [done |]. lia.
  - destruct (Z.ltb_spec level 0); [lia |].
    destruct (Z.leb_spec (Z.of_nat 6) level); [done |]. lia.
Qed.

(** X14: the documents of a run of [main] hang together: every pass
    other than the first, which is over the root at level 0, is over a
    module that an earlier pass linked from one level up; and when the
    loop returns, every module a document links got its own pass later
    in the run. *)
Theorem documents_are_linked (h : heap) (g : globals) (DATE_STRING : string)
    (gpflow : Z) :
  ∃ r, main h g DATE_STRING gpflow = Some r ∧
    (∀ (j : nat) vj, run_trace r !! j = Some vj →
       (j = 0%nat ∧ v_node vj = gpflow ∧ v_level vj = 0) ∨
       linked_from (run_trace r) j vj) ∧
    (∀ trace enq', r = Returned trace enq' →
       ∀ (i : nat) vi m, trace !! i = Some vi → m ∈ (v_modules vi).*1 →
         ∃ (j : nat) vj, (i < j)%nat ∧ trace !! j = Some vj ∧ v_node vj = m).
Proof.
  unfold main.
  destruct (traverse_module_bfs_total h (g_RST_PATH g) DATE_STRING
              [(gpflow, 0)] {[gpflow]}) as [r Hrun].
  exists r. split_and!; [done | by eapply bfs_linked |].
  intros trace enq' ->. by eapply bfs_links_visited.
Qed.

(** X15: in a run of [main] no pass is at a negative level, and a pass
    that documents anything is at level 5 at most: there is no heading
    symbol for a deeper one, whose first entry ends the run with
    [IndexError]. *)
Theorem documents_at_most_six_deep (h : heap) (g : globals)
    (DATE_STRING : string) (gpflow : Z) :
  ∃ r, main h g DATE_STRING gpflow = Some r ∧
    Forall (fun v => 0 ≤ v_level v ∧ (visit_ids v ≠ [] → v_level v ≤ 5))
           (run_trace r).
Proof.
  unfold main.
  destruct (traverse_module_bfs_total h (g_RST_PATH g) DATE_STRING
              [(gpflow, 0)] {[gpflow]}) as [r Hrun].
  exists r. split; [done |].
  destruct (bfs_order_run _ _ _ _ _ Hrun) as (q & e & _ & _ & _ & _ & Hdepth).
  destruct (bfs_invariant h (g_RST_PATH g) DATE_STRING
              (fun _ _ trace =>
                 Forall (fun v => visit_ids v ≠ [] → v_level v ≤ 5) trace))
    with (fuel := (length [(gpflow, 0)] + size h)%nat)
         (queue := [(gpflow, 0)]) (enq := ({[gpflow]} : gset Z))
         (trace := @nil visit) (r := r)
    as (_ & _ & Hlevels); try done.
  - intros node level q' e' t st v Ht _ Hv.
    apply Forall_app. split; [done |]. constructor; [| constructor].
    apply visit_module_spec in Hv as (Hscan & _ & -> & Hvc & Hvm & _).
    intros Hids.
    destruct (scanned_rendered_level _ _ _ _ _ _ Hscan) as [[Hc Hm]|[u Hu]].
    + simpl in Hc, Hm. destruct Hids. unfold visit_ids.
      by rewrite Hvc, Hvm, Hc, Hm.
    + apply level_underline_range in Hu. lia.
  - rewrite Forall_forall in Hdepth, Hlevels. apply Forall_forall.
    intros v Hv. split; [by destruct (Hdepth v Hv) | by apply Hlevels].
Qed.

(** ** Look-ahead *)

(** X16: the look-ahead only gets stricter as [enqueued_items] grows: a
    module it rejects under a set it rejects under every larger set, so a
    module turned down once in a run is turned down for the rest of it. *)
Theorem look_ahead_antitone (h : heap) (module : Z) (e1 e2 : gset Z) :
  e1 ⊆ e2 →
  (do_visit_module h module e1 = Ok false →
   do_visit_module h module e2 = Ok false) ∧
  (do_visit_module h module e2 = Ok true →
   do_visit_module h module e1 ≠ Ok false).
Proof.
  intros Hsub. split.
  - by apply do_visit_module_antitone.
  - intros Htrue Hfalse.
    apply (do_visit_module_antitone h module e1 e2 Hsub) in Hfalse.
    congruence.
Qed.

Lemma look_ahead_antitone_witness :
  do_visit_module library_heap 12 ∅ = Ok true ∧
  do_visit_module library_heap 12 {[11]} = Ok false ∧
  do_visit_module library_heap 12 {[11; 12]} = Ok false.
Proof.
  split; [reflexivity |]. split; [reflexivity |].
  refine (proj1 (look_ahead_antitone library_heap 12 {[11]} {[11; 12]} _) _).
  - set_solver.
  - reflexivity.
Defined.

(** ** Identities *)

Lemma output_independent_of_identities_witness :
  ∃ r,
    traverse_module_bfs library_heap "source" "03/11/26" [(1, 0)] {[1]}
    = Some r ∧
    traverse_module_bfs (rename_heap (Z.add 100) library_heap)
      "source" "03/11/26" (prod_map (Z.add 100) id <$> [(1, 0)])
      (set_map (Z.add 100) ({[1]} : gset Z)) =
    Some (rename_run (Z.add 100) r) ∧
    v_file <$> run_trace (rename_run (Z.add 100) r) = v_file <$> run_trace r ∧
    files_of (run_trace (rename_run (Z.add 100) r)) = files_of (run_trace r).
Proof.
  assert (Hinj : Inj (=) (=) (Z.add 100)) by (intros x y Hxy; lia).
  apply (@output_independent_of_identities (Z.add 100) Hinj library_heap
           "source" "03/11/26" [(1, 0)] {[1]}).
Defined.

(** ** The shallowest visited module documents *)

Lemma scanned_accepted h node level children st st' :
  scanned h node level children st st' →
  ∃ new_m,
    s_modules st' = s_modules st ++ new_m ∧
    s_queue st' = s_queue st ++ ((fun e => (e.1, level + 1)) <$> new_m) ∧
    Forall (fun e => ∃ enq : gset Z,
              s_enqueued st ⊆ enq ∧ enq ⊆ s_enqueued st' ∧
              do_visit_module h e.1 enq = Ok true) new_m.
Proof.
  induction 1 as [st|child rest st st' Hin Hscan IH
                 |child rest st st' rst Hin Hc Hr Hscan IH
                 |child rest st st' rst Hin Hc Hm Hv Hr Hscan IH
                 |child rest st st' Hin Hc Hwhy Hscan IH].
  - exists []. rewrite !app_nil_r. by split_and!.
  - exact IH.
  - destruct IH as (new_m & Hms & Hq & Hall). simpl in *.
    exists new_m. split_and!; [done | done |].
    eapply Forall_impl; [exact Hall |].
    intros e (enq & Hlo & Hhi & Hdo). exists enq. split_and!; [| done | done].
    set_solver.
  - destruct IH as (new_m & Hms & Hq & Hall). simpl in *.
    apply scanned_enqueued_mono in Hscan. simpl in Hscan.
    exists ((child, rst) :: new_m). split_and!.
    + by rewrite Hms, <- app_assoc.
    + by rewrite Hq, <- app_assoc.
    + constructor.
      * exists (s_enqueued st). simpl. split_and!; [done | | done].
        set_solver.
      * eapply Forall_impl; [exact Hall |].
        intros e (enq & Hlo & Hhi & Hdo). exists enq.
        split_and!; [| done | done]. set_solver.
  - exact IH.
Qed.

Section Accepted.

Variable h : heap.
Variables RST_PATH DATE_STRING : string.
Variable root : Z.

Lemma visit_module_accepted node level queue enq st v :
  visit_module h RST_PATH DATE_STRING node level queue enq = Ok (st, v) →
  v_node v = node ∧ v_level v = level ∧
  s_queue st = queue ++ ((fun e => (e.1, level + 1)) <$> v_modules v) ∧
  s_enqueued st = list_to_set (visit_ids v) ∪ enq ∧
  (∀ x, x ∈ visit_ids v → x ∈ get_public_attributes h node) ∧
  Forall (fun e => ∃ enq' : gset Z,
            enq ⊆ enq' ∧ enq' ⊆ s_enqueued st ∧
            do_visit_module h e.1 enq' = Ok true) (v_modules v).
Proof.
  intros Hv.
  destruct (visit_module_ids _ _ _ _ _ _ _ _ _ Hv)
    as (new_c & new_m & Hadds & Hvc & Hvm).
  apply visit_module_spec in Hv as (Hscan & Hnode & Hlevel & Hcs & Hms & _).
  destruct Hadds as (_ & _ & _ & Henq & _). simpl in Henq.
  destruct (scanned_accepted _ _ _ _ _ _ Hscan) as (new_m' & Hms' & Hq & Hall).
  destruct (scanned_sublist _ _ _ _ _ _ Hscan)
    as (lc & lm & Hlc & Hlm & Hsubc & Hsubm).
  simpl in Hms', Hq, Hall, Hlc, Hlm.
  assert (Hlinked : v_modules v = new_m') by congruence.
  rewrite Hlinked. split_and!; try done.
  - unfold visit_ids. by rewrite Hvc, Hvm.
  - intros x [Hx|Hx]%elem_of_app.
    + rewrite Hcs, Hlc in Hx. by apply (sublist_subseteq _ _ Hsubc).
    + rewrite Hms, Hlm in Hx. by apply (sublist_subseteq _ _ Hsubm).
Qed.

Lemma enqueued_after_app (trace : list visit) (v : visit) (n : nat) :
  (n ≤ length trace)%nat →
  enqueued_after root (trace ++ [v]) n = enqueued_after root trace n.
Proof.
  intros Hn. unfold enqueued_after. by rewrite take_app_le.
Qed.

Lemma enqueued_after_all (trace : list visit) (n : nat) :
  (length trace ≤ n)%nat →
  enqueued_after root trace n =
  {[root]} ∪ list_to_set (mjoin (visit_ids <$> trace)).
Proof.
  intros Hn. unfold enqueued_after. by rewrite take_ge.
Qed.

Lemma accepted_by_app trace v i m :
  accepted_by h root trace i m → accepted_by h root (trace ++ [v]) i m.
Proof.
  intros (vi & enq & Hi & Hm & Hlo & Hhi & Hdo).
  pose proof (lookup_lt_Some _ _ _ Hi) as Hlt.
  exists vi, enq. split_and!; try done.
  - by apply lookup_app_l_Some.
  - rewrite enqueued_after_app by lia. done.
  - rewrite enqueued_after_app by lia. done.
Qed.

Lemma accepted_from_app trace v j vj :
  accepted_from h root trace j vj → accepted_from h root (trace ++ [v]) j vj.
Proof.
  intros (i & vi & Hij & Hi & Hl & Hacc). exists i, vi.
  split_and!; try done; [by apply lookup_app_l_Some |].
  by apply accepted_by_app.
Qed.

(** What the loop maintains in a run from the root: [enqueued_items] is
    the root and what the passes documented; every entry of the queue but
    the first, for the root, is a module that a pass linked after the
    look-ahead accepted it; and so is the module of every pass but the
    first. *)
Lemma bfs_accepted r :
  traverse_module_bfs h RST_PATH DATE_STRING [(root, 0)] {[root]} = Some r →
  ∀ (j : nat) vj, run_trace r !! j = Some vj →
    is_documentable_module h (v_node vj) = Ok true ∧
    (∀ x, x ∈ visit_ids vj → x ∈ get_public_attributes h (v_node vj)) ∧
    ((j = 0%nat ∧ v_node vj = root ∧ v_level vj = 0) ∨
     accepted_from h root (run_trace r) j vj).
Proof.
  intros Hrun.
  destruct (bfs_invariant h RST_PATH DATE_STRING
    (fun q (e : gset Z) t =>
       e = {[root]} ∪ list_to_set (mjoin (visit_ids <$> t)) ∧
       ((t = [] ∧ q = [(root, 0)]) ∨
        Forall (fun en => ∃ (i : nat) vi, t !! i = Some vi ∧
                  en.2 = v_level vi + 1 ∧ accepted_by h root t i en.1) q) ∧
       ∀ (j : nat) vj, t !! j = Some vj →
         is_documentable_module h (v_node vj) = Ok true ∧
         (∀ x, x ∈ visit_ids vj → x ∈ get_public_attributes h (v_node vj)) ∧
         ((j = 0%nat ∧ v_node vj = root ∧ v_level vj = 0) ∨
          accepted_from h root t j vj)))
    with (fuel := (length [(root, 0)] + size h)%nat) (queue := [(root, 0)])
         (enq := ({[root]} : gset Z)) (trace := @nil visit) (r := r)
    as (_ & _ & _ & _ & Hfinal); try done.
  - intros entry q e t (He & Hq & Ht). split_and!; [done | | done]. right.
    destruct Hq as [[_ [= _ ->]]|Hq]; [constructor | by inversion Hq].
  - intros node level q e t st v (He & Hq & Ht) Hdoc Hv.
    apply visit_module_accepted in Hv
      as (Hnode & Hlevel & Hqueue & Henq & Hown & Hacc).
    assert (Hids : mjoin (visit_ids <$> t ++ [v]) =
                   mjoin (visit_ids <$> t) ++ visit_ids v).
    { rewrite fmap_app, join_app. simpl. by rewrite app_nil_r. }
    assert (Henq' : s_enqueued st =
              {[root]} ∪ list_to_set (mjoin (visit_ids <$> t ++ [v]))).
    { rewrite Henq, He, Hids, list_to_set_app_L. set_solver. }
    assert (Hnew : Forall (fun en => ∃ (i : nat) vi,
                     (t ++ [v]) !! i = Some vi ∧ en.2 = v_level vi + 1 ∧
                     accepted_by h root (t ++ [v]) i en.1)
                    ((fun e => (e.1, level + 1)) <$> v_modules v)).
    { apply Forall_fmap, Forall_forall. intros [m rst] Hm.
      assert (Hlast : (t ++ [v]) !! length t = Some v)
        by (by rewrite lookup_app_r, Nat.sub_diag by lia).
      exists (length t), v. simpl. split_and!; [done | by rewrite Hlevel |].
      rewrite Forall_forall in Hacc.
      destruct (Hacc _ Hm) as (enq' & Hlo & Hhi & Hdo). simpl in Hdo.
      exists v, enq'. split_and!; [done | | | | done].
      - apply list_elem_of_fmap. by exists (m, rst).
      - rewrite enqueued_after_app, enqueued_after_all by lia.
        by rewrite <- He.
      - rewrite enqueued_after_all by (rewrite length_app; simpl; lia).
        by rewrite <- Henq'. }
    assert (Hhead : (t = [] ∧ node = root ∧ level = 0) ∨
                    accepted_from h root (t ++ [v]) (length t) v).
    { destruct Hq as [[-> [= -> -> _]]|Hq]; [by left | right].
      apply Forall_cons in Hq as [(i & vi & Hi & Hl & Hby) _]. simpl in *.
      exists i, vi. split_and!.
      - by eapply lookup_lt_Some.
      - by apply lookup_app_l_Some.
      - by rewrite Hlevel.
      - rewrite Hnode. by apply accepted_by_app. }
    split_and!.
    + exact Henq'.
    + right. rewrite Hqueue. apply Forall_app. split; [| done].
      destruct Hq as [[_ [= _ _ ->]]|Hq]; [constructor |].
      apply Forall_cons in Hq as [_ Hq].
      eapply Forall_impl; [exact Hq |].
      intros en (i & vi & Hi & ? & ?). exists i, vi.
      split_and!; [by apply lookup_app_l_Some | done |].
      by apply accepted_by_app.
    + intros j vj Hj.
      destruct (decide (j < length t)%nat) as [Hlt|Hge].
      * rewrite lookup_app_l in Hj by done.
        destruct (Ht j vj Hj) as (? & ? & [?|?]);
          (split_and!; [done | done |]); [by left | right].
        by apply accepted_from_app.
      * assert (j = length t) as ->.
        { apply lookup_lt_Some in Hj. rewrite length_app in Hj.
          simpl in Hj. lia. }
        rewrite lookup_app_r, Nat.sub_diag in Hj by lia.
        injection Hj as <-. rewrite Hnode.
        split_and!; [done | done |].
        destruct Hhead as [(-> & -> & ->)|?]; [left | by right].
        by rewrite Hlevel.
  - split_and!; [simpl; set_solver | by left |].
    intros j vj Hj. by rewrite lookup_nil in Hj.
Qed.

End Accepted.

(** In [sibling_alias_heap] the look-ahead keeps the loop out of
    [gpflow.b], whose only content is declared in a sibling: the class [X],
    two steps from the root through [gpflow.b], is documented three steps
    from the root, in the document of [gpflow.a.sub]. *)
Lemma shallowest_path_counterexample :
  ∃ r, traverse_module_bfs sibling_alias_heap "source" "03/11/26"
         [(1, 0)] {[1]} = Some r ∧
       documented_in (run_trace r) 4 5 ∧
       ¬ spec_shallowest_path_wins sibling_alias_heap 1 (run_trace r).
Proof.
  eexists. split; [vm_compute; reflexivity |]. split.
  { eexists. split_and!.
    - apply list_elem_of_lookup. exists 2%nat. reflexivity.
    - reflexivity.
    - vm_compute. repeat constructor. }
  intros Hspec.
  destruct (Hspec 5 3 1%nat 4 2%nat) as (v & Hv & Hnode & _).
  - exists 3. split; [vm_compute; repeat constructor | reflexivity].
  - vm_compute; repeat constructor.
  - exists 2. split; [vm_compute; repeat constructor |].
    exists 4. split; [vm_compute; repeat constructor | reflexivity].
  - vm_compute; repeat constructor.
  - lia.
  - exists 4. eexists. split_and!.
    + apply list_elem_of_lookup. exists 2%nat. reflexivity.
    + reflexivity.
    + vm_compute. repeat constructor.
  - simpl in Hv.
    repeat (apply elem_of_cons in Hv as [->|Hv]; [discriminate Hnode |]).
    by apply elem_of_nil in Hv.
Qed.

(** C1 (amended): in a run from [[(root, 0)]] with the root in
    [enqueued_items], the modules are visited in order of level. Every
    pass is over a documentable module and documents public attributes of
    that module only. The first pass is over the root; every other pass is
    over a module that an earlier pass, one level up, linked after the
    look-ahead [do_visit_module] returned [True] for it under the
    [enqueued_items] of that moment, which hold the root and what the
    passes before documented: a module that is not documentable, or that
    is not the root and that the look-ahead rejects already under the
    initial [enqueued_items], is never visited, and a path through it does
    not count. Among the modules visited, an object that is a public
    attribute of several is documented in the document of the one visited
    first, the level of a visited module being the length of an attribute
    path from the root to it: no visited module at a shallower level than
    the documenting one exposes the object. *)
Theorem first_visited_module_documents (h : heap)
    (RST_PATH DATE_STRING : string) (root : Z) :
  ∃ r, traverse_module_bfs h RST_PATH DATE_STRING [(root, 0)] {[root]}
       = Some r ∧
    (∀ (i j : nat) vi vj,
       run_trace r !! i = Some vi → run_trace r !! j = Some vj →
       (i ≤ j)%nat → v_level vi ≤ v_level vj) ∧
    (∀ (j : nat) vj, run_trace r !! j = Some vj →
       is_documentable_module h (v_node vj) = Ok true ∧
       at_depth h root (v_node vj) (v_level vj) ∧
       (∀ x, x ∈ visit_ids vj → x ∈ get_public_attributes h (v_node vj)) ∧
       ((j = 0%nat ∧ v_node vj = root ∧ v_level vj = 0) ∨
        (accepted_from h root (run_trace r) j vj ∧
         do_visit_module h (v_node vj) {[root]} ≠ Ok false))) ∧
    (∀ m, is_documentable_module h m ≠ Ok true ∨
          (m ≠ root ∧ do_visit_module h m {[root]} = Ok false) →
          m ∉ v_node <$> run_trace r) ∧
    ∀ (i j : nat) vi vj x,
      run_trace r !! i = Some vi →
      run_trace r !! j = Some vj →
      x ∈ visit_ids vj →
      x ∈ get_public_attributes h (v_node vi) →
      (j ≤ i)%nat ∧ v_level vj ≤ v_level vi ∧
      at_depth h root (v_node vj) (v_level vj) ∧
      at_depth h root (v_node vi) (v_level vi).
Proof.
  destruct (traverse_module_bfs_total h RST_PATH DATE_STRING
              [(root, 0)] {[root]}) as [r Hrun].
  exists r. split; [done |].
  destruct (bfs_order_run _ _ _ _ _ Hrun)
    as (queue & enq & _ & Hord & _ & _ & Hdepth).
  pose proof (bfs_accepted _ _ _ _ _ Hrun) as Hacc.
  assert (Hsorted : ∀ (i j : nat) vi vj,
            run_trace r !! i = Some vi → run_trace r !! j = Some vj →
            (i ≤ j)%nat → v_level vi ≤ v_level vj).
  { intros i j vi vj Hi Hj Hij.
    destruct (decide (i = j)) as [->|Hne]; [by simplify_eq |].
    by destruct (Hord i j vi vj ltac:(lia) Hi Hj) as [? _]. }
  rewrite Forall_forall in Hdepth.
  assert (Hpass : ∀ (j : nat) vj, run_trace r !! j = Some vj →
            is_documentable_module h (v_node vj) = Ok true ∧
            at_depth h root (v_node vj) (v_level vj) ∧
            (∀ x, x ∈ visit_ids vj →
                  x ∈ get_public_attributes h (v_node vj)) ∧
            ((j = 0%nat ∧ v_node vj = root ∧ v_level vj = 0) ∨
             (accepted_from h root (run_trace r) j vj ∧
              do_visit_module h (v_node vj) {[root]} ≠ Ok false))).
  { intros j vj Hj.
    assert (Hat : at_depth h root (v_node vj) (v_level vj))
      by (apply (Hdepth vj); by eapply list_elem_of_lookup_2).
    destruct (Hacc j vj Hj) as (Hdoc & Hown & [Hroot|Hfrom]);
      (split_and!; [done | done | done |]); [by left | right].
    split; [done |].
    destruct Hfrom as (i & vi & _ & _ & _ & vi' & e & _ & _ & Hlo & _ & Hdo).
    intros Hfalse.
    apply (do_visit_module_antitone h (v_node vj) {[root]} e) in Hfalse.
    - congruence.
    - unfold enqueued_after in Hlo. set_solver. }
  split; [exact Hsorted |]. split; [exact Hpass |]. split.
  { intros m Hm Hin.
    apply list_elem_of_fmap in Hin as (vj & -> & Hin).
    apply list_elem_of_lookup in Hin as (j & Hj).
    destruct (Hpass j vj Hj) as (Hdoc & _ & _ & Hwhy).
    destruct Hm as [Hnot|[Hne Hfalse]]; [done |].
    destruct Hwhy as [(_ & Hroot & _)|[_ Hyes]]; done. }
  intros i j vi vj x Hi Hj Hx Hexposed.
  assert (Hji : (j ≤ i)%nat).
  { destruct (decide (j ≤ i)%nat) as [|Hlt]; [done |].
    destruct (Hord i j vi vj ltac:(lia) Hi Hj) as [_ Hfresh].
    destruct (Hfresh x Hx Hexposed). }
  split_and!.
  - done.
  - by eapply Hsorted.
  - apply (Hdepth vj). by eapply list_elem_of_lookup_2.
  - apply (Hdepth vi). by eapply list_elem_of_lookup_2.
Qed.
